(** * Verification of starshiptroopers/webserver

    A shallow embedding of [webserver.go] and of the user-agent parser that
    ships with it, together with the properties of the request pipeline
    (request counter, robots detector, access logger, regexp fall-back
    router), of [DetectUA], and of the background start and shutdown
    operations.

    The Go standard-library pieces the package relies on ([unicode/utf8],
    [regexp], [strconv.ParseUint]) and the parts of gin's [Context] it
    touches are modelled first; the package itself follows. *)

From Stdlib Require Import ZArith List String Ascii Bool Lia DecimalString.
From stdpp Require Import base option list gmap strings.

Local Open Scope Z_scope.

(** Go strings are byte sequences. *)
Definition bytes_of (s : string) : list ascii := list_ascii_of_string s.
Definition string_of (l : list ascii) : string := string_of_list_ascii l.
Definition byteval (a : ascii) : Z := Z.of_N (N_of_ascii a).

(* ------------------------------------------------------------------ *)
(** ** unicode/utf8 *)

Module utf8.

Definition RuneError : Z := 0xFFFD.

(** The table [first] of the Go runtime, for lead bytes [>= 0x80]: the
    size of the sequence and the range accepted for its second byte. *)
Definition first (b0 : Z) : option (nat * Z * Z) :=
  if b0 <? 0xC2 then None
  else if b0 <=? 0xDF then Some (2%nat, 0x80, 0xBF)
  else if b0 =? 0xE0 then Some (3%nat, 0xA0, 0xBF)
  else if b0 <=? 0xEC then Some (3%nat, 0x80, 0xBF)
  else if b0 =? 0xED then Some (3%nat, 0x80, 0x9F)
  else if b0 <=? 0xEF then Some (3%nat, 0x80, 0xBF)
  else if b0 =? 0xF0 then Some (4%nat, 0x90, 0xBF)
  else if b0 <=? 0xF3 then Some (4%nat, 0x80, 0xBF)
  else if b0 =? 0xF4 then Some (4%nat, 0x80, 0x8F)
  else None.

Definition between (lo hi b : Z) : bool := (lo <=? b) && (b <=? hi).
Definition maskx (b : Z) : Z := Z.land b 0x3F.

(** [DecodeRuneInString]: the first rune of [s] and its width in bytes. *)
Definition DecodeRuneInString (s : list ascii) : Z * nat :=
  match s with
  | [] => (RuneError, 0%nat)
  | a0 :: s1 =>
    let s0 := byteval a0 in
    if s0 <? 0x80 then (s0, 1%nat) else
    match first s0 with
    | None => (RuneError, 1%nat)
    | Some (sz, lo, hi) =>
      match s1 with
      | [] => (RuneError, 1%nat)
      | a1 :: s2 =>
        let b1 := byteval a1 in
        if negb (between lo hi b1) then (RuneError, 1%nat)
        else if (sz <=? 2)%nat
        then (Z.lor (Z.shiftl (Z.land s0 0x1F) 6) (maskx b1), 2%nat)
        else
        match s2 with
        | [] => (RuneError, 1%nat)
        | a2 :: s3 =>
          let b2 := byteval a2 in
          if negb (between 0x80 0xBF b2) then (RuneError, 1%nat)
          else if (sz <=? 3)%nat
          then (Z.lor (Z.lor (Z.shiftl (Z.land s0 0x0F) 12)
                             (Z.shiftl (maskx b1) 6)) (maskx b2), 3%nat)
          else
          match s3 with
          | [] => (RuneError, 1%nat)
          | a3 :: _ =>
            let b3 := byteval a3 in
            if negb (between 0x80 0xBF b3) then (RuneError, 1%nat)
            else (Z.lor (Z.lor (Z.lor (Z.shiftl (Z.land s0 0x07) 18)
                                      (Z.shiftl (maskx b1) 12))
                               (Z.shiftl (maskx b2) 6)) (maskx b3), 4%nat)
          end
        end
      end
    end
  end.

(** The runes of a string as a [for range] loop, or the regexp engine's
    [step], sees them: each with its width in bytes. *)
Fixpoint runes_from (skip : nat) (s : list ascii) : list (Z * nat) :=
  match s with
  | [] => []
  | _ :: s' =>
    match skip with
    | S k => runes_from k s'
    | O => let rw := DecodeRuneInString s in
           rw :: runes_from (snd rw - 1) s'
    end
  end.

Definition runes (s : string) : list (Z * nat) := runes_from 0 (bytes_of s).

End utf8.

(* ------------------------------------------------------------------ *)
(** ** unicode: simple case folding *)

Module unicode.

(** [SimpleFold] on the orbits that contain an ASCII letter.  Two of them
    have a third member outside ASCII: the Kelvin sign U+212A folds with
    [k]/[K], and the long s U+017F with [s]/[S]. *)
Definition SimpleFold (r : Z) : Z :=
  if r =? 0x4B then 0x6B           (* K -> k *)
  else if r =? 0x6B then 0x212A    (* k -> KELVIN SIGN *)
  else if r =? 0x212A then 0x4B    (* KELVIN SIGN -> K *)
  else if r =? 0x53 then 0x73      (* S -> s *)
  else if r =? 0x73 then 0x17F     (* s -> LONG S *)
  else if r =? 0x17F then 0x53     (* LONG S -> S *)
  else if utf8.between 0x41 0x5A r then r + 32
  else if utf8.between 0x61 0x7A r then r - 32
  else r.

End unicode.

(* ------------------------------------------------------------------ *)
(** ** regexp

    The fragment of RE2 syntax the patterns of this package are written
    in: literals, [.], [\d], escaped punctuation, bracket classes, [^],
    [$], capturing and non-capturing groups, alternation, the greedy
    [*], [+], [?], and a leading [(?i)].  Matching is leftmost-first, as
    in Go's default (non-POSIX) mode. *)

Module regexp.

Inductive Regexp : Type :=
| EmptyMatch
| Literal (r : Z) (foldCase : bool)
| AnyCharNotNL
| CharClass (neg : bool) (ranges : list (Z * Z))
| BeginText
| EndText
| Concat (a b : Regexp)
| Alternate (a b : Regexp)
| Star (a : Regexp)
| Plus (a : Regexp)
| Quest (a : Regexp)
| Capture (n : nat) (a : Regexp).

(** *** Parsing *)

Definition is_punct (b : Z) : bool :=
  utf8.between 0x21 0x2F b || utf8.between 0x3A 0x40 b
  || utf8.between 0x5B 0x60 b || utf8.between 0x7B 0x7E b.

Fixpoint parse_class (s : list ascii) (acc : list (Z * Z))
  : option (list (Z * Z) * list ascii) :=
  match s with
  | [] => None
  | a :: s' =>
    if Ascii.eqb a "]" then Some (rev acc, s')
    else if Ascii.eqb a "\" || negb (byteval a <? 0x80) then None
    else
      match s' with
      | "-"%char :: b :: s'' =>
        if Ascii.eqb b "]"
        then parse_class s' ((byteval a, byteval a) :: acc)
        else if Ascii.eqb b "\" || negb (byteval b <? 0x80) then None
        else if byteval a <=? byteval b
             then parse_class s'' ((byteval a, byteval b) :: acc)
             else None
      | _ => parse_class s' ((byteval a, byteval a) :: acc)
      end
  end.

Definition digits : Regexp := CharClass false [(0x30, 0x39)].

Definition parsed : Type := option (Regexp * nat * list ascii).

(** Recursive descent, one function per precedence level; [n] is the
    index the next capturing group gets. *)
Fixpoint parse_alt (fuel : nat) (fold : bool) (n : nat) (s : list ascii)
  {struct fuel} : parsed :=
  match fuel with
  | O => None
  | S f =>
    match parse_cat f fold n s with
    | Some (r1, n1, "|"%char :: s1) =>
      match parse_alt f fold n1 s1 with
      | Some (r2, n2, s2) => Some (Alternate r1 r2, n2, s2)
      | None => None
      end
    | res => res
    end
  end
with parse_cat (fuel : nat) (fold : bool) (n : nat) (s : list ascii)
  {struct fuel} : parsed :=
  match fuel with
  | O => None
  | S f =>
    match s with
    | [] => Some (EmptyMatch, n, s)
    | c :: _ =>
      if Ascii.eqb c "|" || Ascii.eqb c ")" then Some (EmptyMatch, n, s)
      else
        match parse_rep f fold n s with
        | Some (r1, n1, s1) =>
          match parse_cat f fold n1 s1 with
          | Some (EmptyMatch, n2, s2) => Some (r1, n2, s2)
          | Some (r2, n2, s2) => Some (Concat r1 r2, n2, s2)
          | None => None
          end
        | None => None
        end
    end
  end
with parse_rep (fuel : nat) (fold : bool) (n : nat) (s : list ascii)
  {struct fuel} : parsed :=
  match fuel with
  | O => None
  | S f =>
    match parse_atom f fold n s with
    | Some (r, n1, op :: s1) =>
      let lazy_or_nested :=
        match s1 with
        | q :: _ => Ascii.eqb q "?" || Ascii.eqb q "*" || Ascii.eqb q "+"
        | [] => false
        end in
      if Ascii.eqb op "*" then if lazy_or_nested then None else Some (Star r, n1, s1)
      else if Ascii.eqb op "+" then if lazy_or_nested then None else Some (Plus r, n1, s1)
      else if Ascii.eqb op "?" then if lazy_or_nested then None else Some (Quest r, n1, s1)
      else if Ascii.eqb op "{" then None
      else Some (r, n1, op :: s1)
    | res => res
    end
  end
with parse_atom (fuel : nat) (fold : bool) (n : nat) (s : list ascii)
  {struct fuel} : parsed :=
  match fuel with
  | O => None
  | S f =>
    match s with
    | [] => None
    | "("%char :: "?"%char :: ":"%char :: s1 =>
      match parse_alt f fold n s1 with
      | Some (r, n1, ")"%char :: s2) => Some (r, n1, s2)
      | _ => None
      end
    | "("%char :: "?"%char :: _ => None
    | "("%char :: s1 =>
      match parse_alt f fold (S n) s1 with
      | Some (r, n1, ")"%char :: s2) => Some (Capture n r, n1, s2)
      | _ => None
      end
    | "\"%char :: "d"%char :: s1 => Some (digits, n, s1)
    | "\"%char :: c :: s1 =>
      if is_punct (byteval c) then Some (Literal (byteval c) false, n, s1) else None
    | "["%char :: "^"%char :: s1 =>
      if fold then None else
      match parse_class s1 [] with
      | Some (rs, s2) => Some (CharClass true rs, n, s2)
      | None => None
      end
    | "["%char :: s1 =>
      if fold then None else
      match parse_class s1 [] with
      | Some (rs, s2) => Some (CharClass false rs, n, s2)
      | None => None
      end
    | "."%char :: s1 => Some (AnyCharNotNL, n, s1)
    | "^"%char :: s1 => Some (BeginText, n, s1)
    | "$"%char :: s1 => Some (EndText, n, s1)
    | c :: s1 =>
      if Ascii.eqb c "*" || Ascii.eqb c "+" || Ascii.eqb c "?" || Ascii.eqb c ")"
         || Ascii.eqb c "|" || Ascii.eqb c "\" || negb (byteval c <? 0x80)
      then None
      else Some (Literal (byteval c) fold, n, s1)
    end
  end.

(** [Compile]: [None] stands for the error Go reports (and for syntax
    outside the fragment above). *)
Definition Compile (expr : string) : option Regexp :=
  let s := bytes_of expr in
  let '(fold, body) :=
    match s with
    | "("%char :: "?"%char :: "i"%char :: ")"%char :: s' => (true, s')
    | _ => (false, s)
    end in
  match parse_alt (4 * length body + 8) fold 1%nat body with
  | Some (re, _, []) => Some re
  | _ => None
  end.

(** *** Matching *)

(** [Inst.MatchRunePos] for a one-rune instruction: equality, or, when
    the instruction folds case, membership in the [SimpleFold] orbit of
    the pattern's rune.  ASCII orbits have at most three members. *)
Definition matchRune (r0 : Z) (foldCase : bool) (r : Z) : bool :=
  (r =? r0)
  || (foldCase &&
      let r1 := unicode.SimpleFold r0 in
      let r2 := unicode.SimpleFold r1 in
      (negb (r1 =? r0) && ((r =? r1) || (negb (r2 =? r0) && (r =? r2))))).

Definition in_class (neg : bool) (ranges : list (Z * Z)) (r : Z) : bool :=
  xorb neg (existsb (fun lh => utf8.between (fst lh) (snd lh) r) ranges).

(** The text still to read, as decoded runes with their widths. *)
Abbreviation text := (list (Z * nat)).

(** Capture registers: for group [i], its byte offsets if it took part
    in the match ([-1, -1] in Go otherwise). *)
Abbreviation caps := (list (option (nat * nat))).

Abbreviation cont := (text -> nat -> caps -> option caps).

Definition one_rune (p : Z -> bool) (k : cont) : cont :=
  fun t pos c =>
    match t with
    | (r, w) :: t' => if p r then k t' (pos + w)%nat c else None
    | [] => None
    end.

Definition orelse (x y : option caps) : option caps :=
  match x with Some _ => x | None => y end.

(** Greedy iteration of [step]: one more round if it consumes input,
    otherwise (or when that fails) the continuation.  [fuel] bounds the
    rounds by the number of runes left, which none can exceed. *)
Fixpoint iterate (step : cont -> cont) (k : cont) (fuel : nat) : cont :=
  fun t pos c =>
    match fuel with
    | O => k t pos c
    | S fuel' =>
      orelse
        (step (fun t' pos' c' =>
                 if (pos <? pos')%nat then iterate step k fuel' t' pos' c'
                 else None) t pos c)
        (k t pos c)
    end.

(** A backtracking matcher in continuation-passing style; alternatives
    are tried in the order of preference, so the first success is the
    leftmost-first match. *)
Fixpoint run (re : Regexp) (k : cont) {struct re} : cont :=
  match re with
  | EmptyMatch => k
  | Literal r0 f => one_rune (matchRune r0 f) k
  | AnyCharNotNL => one_rune (fun r => negb (r =? 0x0A)) k
  | CharClass neg rs => one_rune (in_class neg rs) k
  | BeginText => fun t pos c => if (pos =? 0)%nat then k t pos c else None
  | EndText => fun t pos c => match t with [] => k t pos c | _ => None end
  | Concat a b => run a (run b k)
  | Alternate a b => fun t pos c => orelse (run a k t pos c) (run b k t pos c)
  | Star a => fun t pos c => iterate (run a) k (S (length t)) t pos c
  | Plus a => run a (fun t pos c => iterate (run a) k (S (length t)) t pos c)
  | Quest a => fun t pos c => orelse (run a k t pos c) (k t pos c)
  | Capture n a =>
    fun t pos c => run a (fun t' pos' c' => k t' pos' (<[n := Some (pos, pos')]> c')) t pos c
  end.

Fixpoint NumSubexp (re : Regexp) : nat :=
  match re with
  | Concat a b | Alternate a b => NumSubexp a `max` NumSubexp b
  | Star a | Plus a | Quest a => NumSubexp a
  | Capture n a => n `max` NumSubexp a
  | _ => 0
  end.

(** Unanchored search: the leftmost start position that matches. *)
Fixpoint search (re : Regexp) (t : text) (pos : nat) : option caps :=
  match run re (fun _ e c => Some (<[0%nat := Some (pos, e)]> c)) t pos
            (replicate (S (NumSubexp re)) None) with
  | Some c => Some c
  | None =>
    match t with
    | [] => None
    | (_, w) :: t' => search re t' (pos + w)%nat
    end
  end.

(** [FindStringSubmatchIndex]: [None] is the nil slice of no match. *)
Definition FindStringSubmatchIndex (re : Regexp) (s : string) : option caps :=
  search re (utf8.runes s) 0.

Definition MatchString (re : Regexp) (s : string) : bool :=
  bool_decide (is_Some (FindStringSubmatchIndex re s)).

(** [ExpandString] for a template that is one group reference [$n]: the
    text of group [n], empty if the group is out of range or took no
    part in the match. *)
Definition group_text (src : string) (matches : caps) (n : nat) : string :=
  match matches !! n with
  | Some (Some (b, e)) => String.substring b (e - b) src
  | _ => ""%string
  end.

End regexp.

(** [MustCompile] panics where [Compile] fails; [None] is the panic. *)
Definition MustCompile_ := regexp.Compile.

(* ------------------------------------------------------------------ *)
(** ** strconv *)

Module strconv.

Inductive NumError : Set := ErrSyntax | ErrRange.

Definition maxUint64 : Z := 2 ^ 64 - 1.
Definition cutoff : Z := maxUint64 / 10 + 1.

(** The digit loop of [ParseUint(s, 10, 64)]; [n] is a [uint64]. *)
Fixpoint parse_digits (s : list ascii) (n : Z) : Z * option NumError :=
  match s with
  | [] => (n, None)
  | c :: s' =>
    let b := byteval c in
    if utf8.between 0x30 0x39 b then
      let d := b - 0x30 in
      if cutoff <=? n then (maxUint64, Some ErrRange)
      else
        let n10 := (n * 10) mod 2 ^ 64 in
        let n1 := (n10 + d) mod 2 ^ 64 in
        if (n1 <? n10) || (maxUint64 <? n1) then (maxUint64, Some ErrRange)
        else parse_digits s' n1
    else (0, Some ErrSyntax)
  end.

Definition ParseUint (s : string) : Z * option NumError :=
  if String.eqb s "" then (0, Some ErrSyntax)
  else parse_digits (bytes_of s) 0.

End strconv.

(* ------------------------------------------------------------------ *)
(** ** The user-agent parser *)

Module UserAgent.
Record t : Type := mk { Family : string; Major : Z; Minor : Z; Patch : Z }.

(** check if UA is one of UAvalues *)
Definition Is (ua : t) (UAvalues : list string) : bool :=
  existsb (fun val => String.eqb (Family ua) val) UAvalues.
End UserAgent.

Module UserAgentRegexp.
Record t : Type := mk { Family : string; UaRegexp : string }.
End UserAgentRegexp.

Definition UA_CHROME_MOBILE : string := "Chrome Mobile".
Definition UA_CHROME : string := "Chrome".
Definition UA_YANDEX : string := "Yandex Browser".
Definition UA_MIUI : string := "MiuiBrowser".
Definition UA_WEBVIEW : string := "Chrome Mobile WebView".
Definition UA_CHROME_IOS : string := "Chrome Mobile iOS".
Definition UA_FIREFOX : string := "Firefox".
Definition UA_OTHER : string := "OTHER".

Definition uaList : list UserAgentRegexp.t :=
  [ UserAgentRegexp.mk UA_MIUI "(MiuiBrowser)/(\d+)\.(\d+)\.(\d+)";
    UserAgentRegexp.mk UA_YANDEX "(YaBrowser)/(\d+)\.(\d+)\.(\d+)";
    UserAgentRegexp.mk UA_WEBVIEW "Version/.+(Chrome)/(\d+)\.(\d+)\.(\d+)\.(\d+)";
    UserAgentRegexp.mk UA_WEBVIEW "; wv\).+(Chrome)/(\d+)\.(\d+)\.(\d+)\.(\d+)";
    UserAgentRegexp.mk UA_CHROME_IOS "(CriOS)/(\d+)\.(\d+)\.(\d+)\.(\d+)";
    UserAgentRegexp.mk UA_CHROME_MOBILE "(Chrome)/(\d+)\.(\d+)\.(\d+)\.(\d+) Mobile(?:[ /]|$)";
    UserAgentRegexp.mk UA_CHROME "(Chromium|Chrome)/(\d+)\.(\d+)(?:\.(\d+)|)(?:\.(\d+)|)";
    UserAgentRegexp.mk UA_FIREFOX "(Firefox)/(\d+)\.(\d+)" ].

(** The body of the first loop of [DetectUA]: the package variable
    [uaRegexp] grows by one compiled pattern per descriptor. *)
Fixpoint compile_all (l : list UserAgentRegexp.t) (uaRegexp : list regexp.Regexp)
  : option (list regexp.Regexp) :=
  match l with
  | [] => Some uaRegexp
  | uaDescriptor :: l' =>
    match MustCompile_ (UserAgentRegexp.UaRegexp uaDescriptor) with
    | Some re => compile_all l' (uaRegexp ++ [re])
    | None => None
    end
  end.

(** The second loop: the first pattern that matches decides. *)
Fixpoint detect (uaRegexp : list regexp.Regexp) (UAstring : string) : UserAgent.t :=
  match uaRegexp with
  | [] => UserAgent.mk UA_OTHER 0 0 0
  | re :: rest =>
    match regexp.FindStringSubmatchIndex re UAstring with
    | Some matches =>
      UserAgent.mk
        (regexp.group_text UAstring matches 1)
        (fst (strconv.ParseUint (regexp.group_text UAstring matches 2)))
        (fst (strconv.ParseUint (regexp.group_text UAstring matches 3)))
        (fst (strconv.ParseUint (regexp.group_text UAstring matches 4)))
    | None => detect rest UAstring
    end
  end.

(** [DetectUA] reads and, on its first call, fills the package variable
    [uaRegexp]; it is threaded through.  [None] is a panic of
    [MustCompile]. *)
Definition DetectUA (uaRegexp : list regexp.Regexp) (UAstring : string)
  : option (list regexp.Regexp * UserAgent.t) :=
  match (if (length uaRegexp =? 0)%nat then compile_all uaList uaRegexp
         else Some uaRegexp) with
  | Some uaRegexp' => Some (uaRegexp', detect uaRegexp' UAstring)
  | None => None
  end.

(* ------------------------------------------------------------------ *)
(** ** zerolog: the events a logger receives *)

Module zerolog.

Inductive Level : Set := InfoLevel | ErrorLevel.

Inductive Field : Type :=
| Int64 (key : string) (v : Z)
| Int (key : string) (v : Z)
| Uint64 (key : string) (v : Z)
| Str (key : string) (v : string).

Record Event : Type := mkEvent
  { level : Level; fields : list Field; msg : string }.

End zerolog.

(* ------------------------------------------------------------------ *)
(** ** gin: the request context *)

Module gin.

(** The values of type [interface{}] a context key may hold. *)
Inductive any : Type :=
| Nil
| AUint64 (v : Z)
| ABool (b : bool)
| AInt (v : Z)
| AString (s : string).

Module Request.
Record t : Type := mk
  { Method : string;
    RequestURI : string;
    URLPath : string;
    URLRawQuery : string;
    Header : gmap string (list string) }.
End Request.

Module ResponseWriter.
Record t : Type := mk { Status : Z; Size : Z }.
End ResponseWriter.

Module Context.
Record t : Type := mk
  { Request : Request.t;
    Writer : ResponseWriter.t;
    Keys : gmap string any;
    (** what [ClientIP()] computes from the connection and its headers *)
    ClientIP : string }.
End Context.

Definition Set_ (key : string) (value : any) (c : Context.t) : Context.t :=
  Context.mk (Context.Request c) (Context.Writer c)
             (<[key := value]> (Context.Keys c)) (Context.ClientIP c).

(** [Get] returns [(value, exists)]; here [Some value] or [None]. *)
Definition Get (key : string) (c : Context.t) : option any :=
  Context.Keys c !! key.

(** [http.Header.Get]: the first value under the key, or the empty string. *)
Definition GetHeader (key : string) (c : Context.t) : string :=
  match Request.Header (Context.Request c) !! key with
  | Some (v :: _) => v
  | _ => ""%string
  end.

Definition UserAgent (c : Context.t) : string := GetHeader "User-Agent" c.

End gin.

(* ------------------------------------------------------------------ *)
(** ** Execution model

    A handler runs against the world it can touch: the context of the
    request it serves, the two log sinks and the clock.  It returns or
    panics.  The middlewares that [NewWebServer] installs also reach the
    server's [globalState]; they run in the monad [Go]. *)

Record World : Type := mkWorld
  { ctx : gin.Context.t;
    LoggerHttp : list zerolog.Event;
    Logger : list zerolog.Event;
    clock : Z  (* nanoseconds *) }.

Inductive outcome : Type :=
| Returned (x : World)
| Panicked (x : World).

(** [gin.HandlerFunc], as services supply it. *)
Definition HandlerFunc : Type := World -> outcome.

Record globalState : Type := mkGlobalState
  { locked : bool;  (* the embedded sync.Mutex *)
    requestCounter : Z  (* uint64 *) }.

Record St : Type := mkSt { state : globalState; world : World }.

Inductive res (A : Type) : Type :=
| Ok (a : A) (s : St)
| Panic (s : St).
Arguments Ok {A} a s.
Arguments Panic {A} s.

Definition Go (A : Type) : Type := St -> res A.

#[export] Instance Go_ret : MRet Go := fun A a s => Ok a s.
#[export] Instance Go_bind : MBind Go := fun A B f m s =>
  match m s with
  | Ok a s' => f a s'
  | Panic s' => Panic s'
  end.

Definition gets {A} (f : St -> A) : Go A := fun s => Ok (f s) s.
Definition modify (f : St -> St) : Go unit := fun s => Ok tt (f s).

Definition with_ctx (f : gin.Context.t -> gin.Context.t) (s : St) : St :=
  let x := world s in
  mkSt (state s) (mkWorld (f (ctx x)) (LoggerHttp x) (Logger x) (clock x)).
Definition with_state (f : globalState -> globalState) (s : St) : St :=
  mkSt (f (state s)) (world s).
Definition with_world (x : World) (s : St) : St := mkSt (state s) x.

(** Running a [gin.HandlerFunc] inside [Go]. *)
Definition call (h : HandlerFunc) : Go unit := fun s =>
  match h (world s) with
  | Returned x => Ok tt (with_world x s)
  | Panicked x => Panic (with_world x s)
  end.

Definition c_Set (key : string) (value : gin.any) : Go unit :=
  modify (with_ctx (gin.Set_ key value)).
Definition c_Get (key : string) : Go (option gin.any) :=
  gets (fun s => gin.Get key (ctx (world s))).
Definition c_Request : Go gin.Request.t :=
  gets (fun s => gin.Context.Request (ctx (world s))).
Definition c_Writer : Go gin.ResponseWriter.t :=
  gets (fun s => gin.Context.Writer (ctx (world s))).
Definition time_Now : Go Z := gets (fun s => clock (world s)).

(** [logger.Info()...Msg(msg)] on the access-log sink. *)
Definition http_Info (fields : list zerolog.Field) (msg : string) : Go unit :=
  modify (fun s =>
    let x := world s in
    mkSt (state s)
         (mkWorld (ctx x)
                  (LoggerHttp x ++ [zerolog.mkEvent zerolog.InfoLevel fields msg])
                  (Logger x) (clock x))).

Definition Lock : Go unit :=
  modify (with_state (fun g => mkGlobalState true (requestCounter g))).
Definition Unlock : Go unit :=
  modify (with_state (fun g => mkGlobalState false (requestCounter g))).

(* ------------------------------------------------------------------ *)
(** ** webserver.go *)

Definition robotsUserAgent : list string :=
  ["facebook"; "WhatsApp"; "Viber"; "TelegramBot"; "Twitter"; "Instagram"; "Wget"]%string.

Definition wrap64 (n : Z) : Z := n mod 2 ^ 64.

(** The first middleware of [NewWebServer]. *)
Definition requestID_middleware (next : Go unit) : Go unit :=
  Lock;;
  modify (with_state (fun g => mkGlobalState (locked g) (wrap64 (requestCounter g + 1))));;
  n ← gets (fun s => requestCounter (state s));
  c_Set "requestID" (gin.AUint64 n);;
  Unlock;;
  next.

Definition httpLogger (next : Go unit) : Go unit :=
  start ← time_Now;
  rq ← c_Request;
  let path := gin.Request.URLPath rq in
  let raw := gin.Request.URLRawQuery rq in
  v ← c_Get "requestID";
  let requestID := match v with Some (gin.AUint64 n) => n | _ => 0 end in
  c_Get "requestID";;
  (* Process request *)
  next;;
  let path := if negb (String.eqb raw "") then (path ++ "?" ++ raw)%string else path in
  noLogging ← c_Get "httpNoLogging";
  match noLogging with
  | Some _ => mret tt
  | None =>
    finish ← time_Now;
    c ← gets (fun s => ctx (world s));
    http_Info
      [ zerolog.Int64 "latency" (Z.quot (finish - start) 1000000);
        zerolog.Str "clientIp" (gin.Context.ClientIP c);
        zerolog.Str "path" path;
        zerolog.Str "method" (gin.Request.Method (gin.Context.Request c));
        zerolog.Int "statusCode" (gin.ResponseWriter.Status (gin.Context.Writer c));
        zerolog.Int "bodySize" (gin.ResponseWriter.Size (gin.Context.Writer c));
        zerolog.Uint64 "requestID" requestID ]
      "http request"
  end.

(** The loop of [robotsDetect] that compiles the names. *)
Fixpoint compile_names (names : list string) (regexps : list regexp.Regexp)
  : option (list regexp.Regexp) :=
  match names with
  | [] => Some regexps
  | name :: names' =>
    match MustCompile_ ("(?i)" ++ name)%string with
    | Some re => compile_names names' (regexps ++ [re])
    | None => None
    end
  end.

(** The loop of the handler [robotsDetect] returns. *)
Fixpoint robots_scan (regexps : list regexp.Regexp) : Go unit :=
  match regexps with
  | [] => mret tt
  | rgxp :: rest =>
    ua ← gets (fun s => gin.UserAgent (ctx (world s)));
    (if regexp.MatchString rgxp ua then c_Set "robot" (gin.ABool true) else mret tt);;
    robots_scan rest
  end.

(** [None] is the panic of [MustCompile] while the handler is built. *)
Definition robotsDetect (names : list string) : option (Go unit -> Go unit) :=
  match compile_names names [] with
  | None => None
  | Some regexps =>
    Some (fun next =>
      xrobot ← gets (fun s => gin.GetHeader "X-Robot" (ctx (world s)));
      (if negb (String.eqb xrobot "")
       then c_Set "robot" (gin.ABool true)
       else c_Set "robot" (gin.ABool false);; robots_scan regexps);;
      next)
  end.

(** [gin.Recovery()]: a panic below it is caught; [recovered] is what
    gin's deferred function does to the world then (it aborts the
    request with status 500). *)
Definition Recovery (recovered : World -> World) (next : Go unit) : Go unit :=
  fun s =>
    match next s with
    | Ok a s' => Ok a s'
    | Panic s' => Ok tt (with_world (recovered (world s')) s')
    end.

Module WebRoute.
Record t : Type := mk { Path : string; Method : string; Handler : HandlerFunc }.
End WebRoute.

(** The interface [WebService], by what its methods return.  [Init]
    only reports whether it failed. *)
Module WebService.
Record t : Type := mk
  { GinRoutes : list WebRoute.t;
    AltRoutes : list WebRoute.t;
    Middlewares : list HandlerFunc;
    Init : option string }.
End WebService.

Module WebServerConfig.
Record t : Type := mk { Addr : string; Port : Z }.
End WebServerConfig.

(** *** Loop variables and the closures that capture them

    The function literal [ServiceRegister] stores in an [iRoute] refers
    to the loop variables [s] and [route].  A closure captures variables,
    not values, so the variables live in a store and the closure holds
    their addresses.  Whether a [for ... range] statement has one
    variable for all its iterations or a fresh one for each is fixed by
    the language version of the module (the [go] line of go.mod, which
    is not part of the sources at hand): one per statement before
    Go 1.22, one per iteration from Go 1.22 on. *)

Inductive loopvar : Set :=
| PerLoop       (* go < 1.22 *)
| PerIteration. (* go >= 1.22 *)

Record Heap : Type := mkHeap
  { svars : list WebService.t;      (* cells of the variables [s] *)
    routevars : list WebRoute.t }.  (* cells of the variables [route] *)

(** Entering an iteration with value [v]: [cur] is the cell of the
    previous iteration of the same statement, if any. *)
Definition bind_var {A} (lv : loopvar) (cur : option nat) (v : A) (cells : list A)
  : list A * nat :=
  match lv, cur with
  | PerLoop, Some l => (<[l := v]> cells, l)
  | _, _ => (cells ++ [v], length cells)
  end.

(** The function literal of [ServiceRegister], with its captures. *)
Record closure : Type := mkClosure { s_ref : nat; route_ref : nat }.

Module iRoute.
Record t : Type := mk { Path : regexp.Regexp; Method : string; Handler : closure }.
End iRoute.

(** [for _, h := range hs { h(c) }] *)
Fixpoint for_each (hs : list HandlerFunc) : HandlerFunc :=
  fun x =>
    match hs with
    | [] => Returned x
    | h :: hs' =>
      match h x with
      | Returned x' => for_each hs' x'
      | Panicked x' => Panicked x'
      end
    end.

(** Calling the function literal: it reads [s] and [route] when called. *)
Definition call_closure (hp : Heap) (f : closure) : HandlerFunc :=
  fun x =>
    match svars hp !! s_ref f, routevars hp !! route_ref f with
    | Some s, Some route =>
      match for_each (WebService.Middlewares s) x with
      | Returned x' => WebRoute.Handler route x'
      | Panicked x' => Panicked x'
      end
    | _, _ => Panicked x
    end.

(** What [router.Handle] registered with gin: method, group, path and
    the chain (the group's middlewares so far, then the handler). *)
Record RouteInfo : Type := mkRouteInfo
  { ri_method : string; ri_group : string; ri_path : string;
    ri_chain : list HandlerFunc }.

Record Engine : Type := mkEngine
  { handlers : list (Go unit -> Go unit);  (* engine.Use, in order *)
    routes : list RouteInfo }.

Record http_Server : Type := mkServer { srv_Addr : string }.

(** The field [state] of the Go struct is the [globalState] of [St]. *)
Record WebServer : Type := mkWebServer
  { config : WebServerConfig.t;
    gin_ : Engine;
    altRoutes : list iRoute.t;
    srv : option http_Server }.

Definition NewWebServer (recovered : World -> World) (config : WebServerConfig.t)
  : option (WebServer * globalState) :=
  match robotsDetect robotsUserAgent with
  | None => None
  | Some robots =>
    Some (mkWebServer config
            (mkEngine [requestID_middleware; httpLogger; robots; Recovery recovered] [])
            [] None,
          mkGlobalState false 0)
  end.

(** The loop over [s.AltRoutes()]. *)
Fixpoint register_alt (lv : loopvar) (l : list WebRoute.t) (s_cell : nat)
  (cur : option nat) (hp : Heap) (alt : list iRoute.t)
  : option (Heap * list iRoute.t) :=
  match l with
  | [] => Some (hp, alt)
  | v :: l' =>
    let '(cells, route_cell) := bind_var lv cur v (routevars hp) in
    let hp' := mkHeap (svars hp) cells in
    match MustCompile_ (WebRoute.Path v) with
    | None => None
    | Some re =>
      register_alt lv l' s_cell (Some route_cell) hp'
        (alt ++ [iRoute.mk re (WebRoute.Method v) (mkClosure s_cell route_cell)])
    end
  end.

Definition Error_Msg (err msg : string) : zerolog.Event :=
  zerolog.mkEvent zerolog.ErrorLevel [zerolog.Str "error" err] msg.

(** The loop over [services]; [group_handlers] are the middlewares
    [router.Use] has put on the group so far. *)
Fixpoint register_services (lv : loopvar) (group : string) (l : list WebService.t)
  (cur : option nat) (group_handlers : list HandlerFunc)
  (hp : Heap) (log : list zerolog.Event) (w : WebServer)
  : option (Heap * list zerolog.Event * WebServer) :=
  match l with
  | [] => Some (hp, log, w)
  | v :: l' =>
    let '(cells, s_cell) := bind_var lv cur v (svars hp) in
    let hp1 := mkHeap cells (routevars hp) in
    let log1 :=
      match WebService.Init v with
      | Some err => log ++ [Error_Msg err "Can't initialize web service"]
      | None => log
      end in
    let group_handlers1 := group_handlers ++ WebService.Middlewares v in
    let routes1 :=
      routes (gin_ w) ++
      map (fun route => mkRouteInfo (WebRoute.Method route) group (WebRoute.Path route)
                                    (group_handlers1 ++ [WebRoute.Handler route]))
          (WebService.GinRoutes v) in
    match register_alt lv (WebService.AltRoutes v) s_cell None hp1 (altRoutes w) with
    | None => None
    | Some (hp2, alt) =>
      register_services lv group l' (Some s_cell) group_handlers1 hp2 log1
        (mkWebServer (config w) (mkEngine (handlers (gin_ w)) routes1) alt (srv w))
    end
  end.

(** [None] is the panic of [regexp.MustCompile] on a malformed pattern. *)
Definition ServiceRegister (lv : loopvar) (hp : Heap) (log : list zerolog.Event)
  (w : WebServer) (group : string) (services : list WebService.t)
  : option (Heap * list zerolog.Event * WebServer) :=
  let group := if negb (String.eqb group "") then group else "/"%string in
  register_services lv group services None [] hp log w.

Fixpoint alt_scan (hp : Heap) (l : list iRoute.t) : HandlerFunc :=
  fun x =>
    match l with
    | [] => Returned x
    | route :: l' =>
      if regexp.MatchString (iRoute.Path route)
           (gin.Request.RequestURI (gin.Context.Request (ctx x)))
      then call_closure hp (iRoute.Handler route) x
      else alt_scan hp l' x
    end.

Definition AltRouter (hp : Heap) (w : WebServer) : HandlerFunc :=
  alt_scan hp (altRoutes w).

(** One request through the engine: the global middlewares around the
    chain gin's own router found, or around [AltRouter] when it found
    none ([NoRoute]). *)
Definition ServeHTTP (hp : Heap) (w : WebServer) (found : option (list HandlerFunc))
  : Go unit :=
  foldr (fun mw k => mw k)
        (call (match found with
               | Some chain => for_each chain
               | None => AltRouter hp w
               end))
        (handlers (gin_ w)).

(** *** Starting and stopping *)

Inductive error : Type :=
| ErrServerClosed                        (* http.ErrServerClosed *)
| ListenError (msg : string)             (* any other listener fault *)
| Errorf_w (format : string) (e : error) (* fmt.Errorf(format with %w, e) *).

Fixpoint Error (e : error) : string :=
  match e with
  | ErrServerClosed => "http: Server closed"
  | ListenError msg => msg
  | Errorf_w format e' => format ++ Error e'
  end.

Definition is_ErrServerClosed (e : error) : bool :=
  match e with ErrServerClosed => true | _ => false end.

Definition Itoa (n : Z) : string := DecimalString.NilZero.string_of_int (Z.to_int n).

Definition bindTo (host : string) (port : Z) : string :=
  (host ++ ":" ++ Itoa port)%string.

(** What [ListenAndServe], running in its goroutine, has done by the
    time [InitTimeout] elapses: it is still serving, or it has returned
    [e] ([ListenAndServe] never returns nil). *)
Inductive listener : Type :=
| Serving
| Stopped (e : error).

(** The goroutine of [RunBg]: the value it sends on [startupError]
    before the timer fires, if any. *)
Definition startupError (l : listener) : option error :=
  match l with
  | Serving => None
  | Stopped e => if negb (is_ErrServerClosed e) then Some e else None
  end.

Definition Info_Msg (fields : list zerolog.Field) (msg : string) : zerolog.Event :=
  zerolog.mkEvent zerolog.InfoLevel fields msg.

Definition RunBg (w : WebServer) (log : list zerolog.Event) (l : listener)
  : WebServer * list zerolog.Event * option error :=
  let addr := bindTo (WebServerConfig.Addr (config w)) (WebServerConfig.Port (config w)) in
  let log1 := log ++ [Info_Msg [zerolog.Str "Addr" (WebServerConfig.Addr (config w));
                                zerolog.Int "Port" (WebServerConfig.Port (config w))]
                               "Starting listener"] in
  let w1 := mkWebServer (config w) (gin_ w) (altRoutes w) (Some (mkServer addr)) in
  (* select: the timer, or a value on startupError *)
  match startupError l with
  | Some err =>
    (w1, log1 ++ [zerolog.mkEvent zerolog.ErrorLevel []
                    ("webserver startup error: " ++ Error err)],
     Some (Errorf_w "can't start web server: " err))
  | None =>
    (w1, log1 ++ [Info_Msg [] ("webserver was started and listen on " ++ addr)], None)
  end.

(** [context.Context], by its deadline. *)
Definition context_Context : Type := option Z.

(** [srv_Shutdown] is the method [Shutdown] of [http.Server]. *)
Definition Shutdown (srv_Shutdown : http_Server -> context_Context -> option error)
  (w : WebServer) (log : list zerolog.Event) (ctx : context_Context)
  : list zerolog.Event * option error :=
  let '(err, log1) :=
    match srv w with
    | Some server => (srv_Shutdown server ctx, log ++ [Info_Msg [] "webserver shutdown"])
    | None => (None, log)
    end in
  (log1, None).

(* ------------------------------------------------------------------ *)
(** ** The access-log record, as specified

    Elapsed milliseconds, client address, the path with [?] and the
    query string appended when the query string is not empty, method,
    status code, byte count and sequence number.  The path and the query
    string are the request's when the logger is entered; the rest is
    read when the chain below it has returned. *)

Definition logged_path (rq : gin.Request.t) : string :=
  if String.eqb (gin.Request.URLRawQuery rq) ""
  then gin.Request.URLPath rq
  else (gin.Request.URLPath rq ++ "?" ++ gin.Request.URLRawQuery rq)%string.

Definition access_record (entry exit : World) (requestID : Z) : zerolog.Event :=
  zerolog.mkEvent zerolog.InfoLevel
    [ zerolog.Int64 "latency" (Z.quot (clock exit - clock entry) 1000000);
      zerolog.Str "clientIp" (gin.Context.ClientIP (ctx exit));
      zerolog.Str "path" (logged_path (gin.Context.Request (ctx entry)));
      zerolog.Str "method" (gin.Request.Method (gin.Context.Request (ctx exit)));
      zerolog.Int "statusCode" (gin.ResponseWriter.Status (gin.Context.Writer (ctx exit)));
      zerolog.Int "bodySize" (gin.ResponseWriter.Size (gin.Context.Writer (ctx exit)));
      zerolog.Uint64 "requestID" requestID ]
    "http request".

Definition emit (ev : zerolog.Event) (s : St) : St :=
  let x := world s in
  mkSt (state s) (mkWorld (ctx x) (LoggerHttp x ++ [ev]) (Logger x) (clock x)).

(** The state in which the first middleware hands over to the next:
    the counter incremented, the mutex released, the number stored. *)
Definition handoff (s : St) : St :=
  let n := wrap64 (requestCounter (state s) + 1) in
  with_ctx (gin.Set_ "requestID" (gin.AUint64 n)) (mkSt (mkGlobalState false n) (world s)).

(* ------------------------------------------------------------------ *)
(** ** Case-insensitive substrings, as specified

    Two runes are equal up to case when simple case folding sends them
    to the same rune; [fold_key] is the folding on the classes that meet
    ASCII.  [name] is a case-insensitive substring of [ua] when, at some
    position of [ua], the runes of [name] follow one by one up to
    case. *)

Definition fold_key (r : Z) : Z :=
  if utf8.between 0x41 0x5A r then r + 32
  else if r =? 0x212A then 0x6B
  else if r =? 0x17F then 0x73
  else r.

Definition ci_eq (a b : Z) : bool := fold_key a =? fold_key b.

Fixpoint ci_prefix (name t : list Z) : bool :=
  match name, t with
  | [], _ => true
  | _ :: _, [] => false
  | a :: name', b :: t' => ci_eq a b && ci_prefix name' t'
  end.

Fixpoint ci_contains (name t : list Z) : bool :=
  ci_prefix name t ||
  match t with
  | [] => false
  | _ :: t' => ci_contains name t'
  end.

Definition rune_values (s : string) : list Z := map fst (utf8.runes s).

Definition ci_substring (name ua : string) : bool :=
  ci_contains (rune_values name) (rune_values ua).

(** The robot flag, as specified: the trust header decides if it is
    there with a value; otherwise the crawler names do. *)
Definition robot_flag (names : list string) (c : gin.Context.t) : bool :=
  if negb (String.eqb (gin.GetHeader "X-Robot" c) "") then true
  else existsb (fun name => ci_substring name (gin.UserAgent c)) names.

(** The pattern [(?i)] followed by literal runes, compiled. *)
Fixpoint fold_literals (l : list Z) : regexp.Regexp :=
  match l with
  | [] => regexp.EmptyMatch
  | [r] => regexp.Literal r true
  | r :: l' => regexp.Concat (regexp.Literal r true) (fold_literals l')
  end.

(* ------------------------------------------------------------------ *)
(** ** Version texts, as specified *)

Definition is_digit (a : ascii) : bool := utf8.between 0x30 0x39 (byteval a).

(** A text is numeric when it is a non-empty run of decimal digits; a
    capture group that is absent expands to the empty text. *)
Definition numeric (t : string) : bool :=
  match bytes_of t with
  | [] => false
  | l => forallb is_digit l
  end.

(** The value of [uaRegexp] once [DetectUA] has filled it. *)
Definition uaCompiled : list regexp.Regexp :=
  default [] (compile_all uaList []).

Definition version_group (n : nat) : bool :=
  (n =? 2)%nat || (n =? 3)%nat || (n =? 4)%nat.

Definition is_digit_run (re : regexp.Regexp) : bool :=
  match re with
  | regexp.Plus (regexp.CharClass neg ranges) =>
    negb neg && bool_decide (ranges = [(0x30, 0x39)])
  | _ => false
  end.

(** Every capture group 2, 3 or 4 of the pattern is [(\d+)]. *)
Fixpoint digit_groups (re : regexp.Regexp) : bool :=
  match re with
  | regexp.Capture n a => if version_group n then is_digit_run a else digit_groups a
  | regexp.Concat a b | regexp.Alternate a b => digit_groups a && digit_groups b
  | regexp.Star a | regexp.Plus a | regexp.Quest a => digit_groups a
  | _ => true
  end.

(** *** Invariants of a match over the bytes [src]

    [aligned]: the text still to read is the decoding of [src] from
    byte [pos] on.  [good]: the registers of the groups 2, 3 and 4
    delimit runs of digits.  [K_ok] and [K_from]: a continuation keeps
    the registers good, the second one given that the bytes from [pos0]
    to the current position are digits. *)

Definition aligned (src : list ascii) (t : regexp.text) (pos : nat) : Prop :=
  t = utf8.runes_from 0 (drop pos src).

Definition digits_between (src : list ascii) (b e : nat) : Prop :=
  forall j a, (b <= j < e)%nat -> src !! j = Some a -> is_digit a = true.

Definition good (src : list ascii) (c : regexp.caps) : Prop :=
  forall i b e, version_group i = true -> c !! i = Some (Some (b, e)) ->
                digits_between src b e.

Definition K_ok (src : list ascii) (k : regexp.cont) : Prop :=
  forall t pos c c', aligned src t pos -> good src c -> k t pos c = Some c' -> good src c'.

Definition K_from (src : list ascii) (pos0 : nat) (k : regexp.cont) : Prop :=
  forall t pos c c',
    aligned src t pos -> (pos0 <= pos)%nat -> digits_between src pos0 pos ->
    good src c -> k t pos c = Some c' -> good src c'.

(* ------------------------------------------------------------------ *)
(** ** Serving a sequence of requests *)

Definition final_state {A} (r : res A) : St :=
  match r with Ok _ s | Panic s => s end.

(** One server serves requests one after the other (the mutex orders
    the increments of concurrent requests in this way).  A request is
    the world it arrives in and the chain gin's router found for it, if
    any; the [globalState] is carried from one request to the next. *)
Fixpoint serve_all (hp : Heap) (w : WebServer) (g : globalState)
  (reqs : list (World * option (list HandlerFunc))) : list (res unit) :=
  match reqs with
  | [] => []
  | (x, found) :: reqs' =>
    let r := ServeHTTP hp w found (mkSt g x) in
    r :: serve_all hp w (state (final_state r)) reqs'
  end.

(** The handlers below the first middleware. *)
Definition below_counter (hp : Heap) (w : WebServer) (found : option (list HandlerFunc))
  : Go unit :=
  foldr (fun mw k => mw k)
        (call (match found with
               | Some chain => for_each chain
               | None => AltRouter hp w
               end))
        (drop 1 (handlers (gin_ w))).

(** The state in which the request that arrived in [x] and was given
    the sequence number [n] enters the handlers below the first
    middleware. *)
Definition numbered (n : Z) (x : World) : St :=
  mkSt (mkGlobalState false n)
       (mkWorld (gin.Set_ "requestID" (gin.AUint64 n) (ctx x))
                (LoggerHttp x) (Logger x) (clock x)).

Definition keeps_state (m : Go unit) : Prop :=
  forall s, state (final_state (m s)) = state s.

(* ------------------------------------------------------------------ *)
(** ** Alternate routing, as specified

    The entries are the alternate routes of the services in the order
    of registration, each with the service it belongs to.  The first
    entry whose pattern matches the URI anywhere runs: the middlewares
    of its service in order, then its handler; the entries after it do
    not run.  Without a match nothing runs. *)

Definition alt_entries (services : list WebService.t)
  : list (WebService.t * WebRoute.t) :=
  flat_map (fun s => map (fun route => (s, route)) (WebService.AltRoutes s)) services.

Definition run_entry (e : WebService.t * WebRoute.t) : HandlerFunc :=
  fun x =>
    match for_each (WebService.Middlewares (fst e)) x with
    | Returned x' => WebRoute.Handler (snd e) x'
    | Panicked x' => Panicked x'
    end.

Definition entry_matches (e : WebService.t * WebRoute.t) (uri : string) : bool :=
  match regexp.Compile (WebRoute.Path (snd e)) with
  | Some re => regexp.MatchString re uri
  | None => false
  end.

Fixpoint dispatch_first_match (entries : list (WebService.t * WebRoute.t)) : HandlerFunc :=
  fun x =>
    match entries with
    | [] => Returned x
    | e :: entries' =>
      if entry_matches e (gin.Request.RequestURI (gin.Context.Request (ctx x)))
      then run_entry e x
      else dispatch_first_match entries' x
    end.

(** An [iRoute] of the server stands for the entry [e]: its pattern is
    the entry's, compiled, and the cells its closure refers to hold the
    entry's service and route. *)
Definition stands_for (hp : Heap) (r : iRoute.t) (e : WebService.t * WebRoute.t) : Prop :=
  regexp.Compile (WebRoute.Path (snd e)) = Some (iRoute.Path r)
  /\ svars hp !! s_ref (iRoute.Handler r) = Some (fst e)
  /\ routevars hp !! route_ref (iRoute.Handler r) = Some (snd e).

Definition heap_extends (hp hp' : Heap) : Prop :=
  svars hp `prefix_of` svars hp' /\ routevars hp `prefix_of` routevars hp'.

(* ------------------------------------------------------------------ *)
(** ** The first middleware, interleaved

    Each request runs in its own goroutine.  The four statements of the
    first middleware are the steps; a goroutine that is at [Lock] moves
    only when nobody holds the mutex.  [AtNext] is [c.Next()]: the
    request has its number. *)

Inductive pc : Set := AtLock | AtIncrement | AtSet | AtUnlock | AtNext.

Record goroutine : Type := mkGoroutine
  { at_ : pc;
    keys : gmap string gin.any  (* c.Keys *) }.

Record shared : Type := mkShared
  { holder : option nat;  (* who holds webServer.state's mutex *)
    counter : Z;          (* webServer.state.requestCounter *)
    goroutines : list goroutine }.

Inductive step : shared -> shared -> Prop :=
| step_Lock i k c gs :
    gs !! i = Some (mkGoroutine AtLock k) ->
    step (mkShared None c gs)
         (mkShared (Some i) c (<[i := mkGoroutine AtIncrement k]> gs))
| step_Increment i k h c gs :
    gs !! i = Some (mkGoroutine AtIncrement k) ->
    step (mkShared h c gs)
         (mkShared h (wrap64 (c + 1)) (<[i := mkGoroutine AtSet k]> gs))
| step_Set i k h c gs :
    gs !! i = Some (mkGoroutine AtSet k) ->
    step (mkShared h c gs)
         (mkShared h c
            (<[i := mkGoroutine AtUnlock (<["requestID"%string := gin.AUint64 c]> k)]> gs))
| step_Unlock i k h c gs :
    gs !! i = Some (mkGoroutine AtUnlock k) ->
    step (mkShared h c gs)
         (mkShared None c (<[i := mkGoroutine AtNext k]> gs)).

(** The number a goroutine has been given, once it has stored it. *)
Definition assigned (g : goroutine) : option Z :=
  match at_ g with
  | AtUnlock | AtNext =>
    match keys g !! "requestID"%string with
    | Some (gin.AUint64 n) => Some n
    | _ => None
    end
  | _ => None
  end.

Definition ids (gs : list goroutine) : list Z := omap assigned gs.

(** A goroutine outside the critical section. *)
Definition quiet (g : goroutine) : Prop :=
  at_ g = AtLock \/ (at_ g = AtNext /\ is_Some (assigned g)).

Definition inv (S : shared) : Prop :=
  Z.of_nat (length (goroutines S)) < 2 ^ 64
  /\ match holder S with
     | None =>
       Forall quiet (goroutines S)
       /\ 0 <= counter S /\ Permutation (ids (goroutines S)) (seqZ 1 (counter S))
     | Some i =>
       exists g,
         goroutines S !! i = Some g
         /\ (forall j g', j <> i -> goroutines S !! j = Some g' -> quiet g')
         /\ match at_ g with
            | AtIncrement =>
              0 <= counter S /\ Permutation (ids (goroutines S)) (seqZ 1 (counter S))
            | AtSet =>
              1 <= counter S /\ Permutation (ids (goroutines S)) (seqZ 1 (counter S - 1))
            | AtUnlock =>
              1 <= counter S /\ assigned g = Some (counter S)
              /\ Permutation (ids (goroutines S)) (seqZ 1 (counter S))
            | _ => False
            end
     end.

#[global] Instance pc_eq_dec : EqDecision pc.
Proof. solve_decision. Defined.

(** [N] requests arrive, none has taken the mutex yet. *)
Definition start (ks : list (gmap string gin.any)) : shared :=
  mkShared None 0 (map (mkGoroutine AtLock) ks).

(** Every request has reached [c.Next()]. *)
Definition finished (S : shared) : Prop :=
  Forall (fun g => at_ g = AtNext) (goroutines S).

(** Statements of the middleware a goroutine has still to run. *)
Definition remaining (g : goroutine) : nat :=
  match at_ g with
  | AtLock => 4 | AtIncrement => 3 | AtSet => 2 | AtUnlock => 1 | AtNext => 0
  end.

Definition total (S : shared) : nat := sum_list (map remaining (goroutines S)).

(* ------------------------------------------------------------------ *)
(** ** Fixtures *)

Definition address_in_use : error :=
  ListenError "listen tcp :9092: bind: address already in use".

Definition test_server : WebServer :=
  mkWebServer (WebServerConfig.mk "" 9092) (mkEngine [] []) [] None.

Definition test_request : gin.Request.t :=
  gin.Request.mk "GET" "/search?q=1" "/search" "q=1" ∅.

Definition test_ctx : gin.Context.t :=
  gin.Context.mk test_request (gin.ResponseWriter.mk 200 5) ∅ "127.0.0.1".

Definition test_state : St :=
  mkSt (mkGlobalState false 0) (mkWorld test_ctx [] [] 0).

(** A handler that opts out of the access log with the value [false]. *)
Definition no_logging_false : Go unit := c_Set "httpNoLogging" (gin.ABool false).

Definition with_method (m : string) (x : World) : World :=
  let c := ctx x in
  let rq := gin.Context.Request c in
  mkWorld (gin.Context.mk
             (gin.Request.mk m (gin.Request.RequestURI rq) (gin.Request.URLPath rq)
                             (gin.Request.URLRawQuery rq) (gin.Request.Header rq))
             (gin.Context.Writer c) (gin.Context.Keys c) (gin.Context.ClientIP c))
          (LoggerHttp x) (Logger x) (clock x).

Definition request_URI (x : World) : string :=
  gin.Request.RequestURI (gin.Context.Request (ctx x)).

(** A handler that leaves its name in the context. *)
Definition mark (key name : string) : HandlerFunc :=
  fun x => Returned (mkWorld (gin.Set_ key (gin.AString name) (ctx x))
                             (LoggerHttp x) (Logger x) (clock x)).

(** One service with the two alternate routes of the example. *)
Definition articles_service : WebService.t :=
  WebService.mk []
    [ WebRoute.mk "/articles/.*" "GET" (mark "handler" "/articles/.*");
      WebRoute.mk "/articles/[0-9]+" "GET" (mark "handler" "/articles/[0-9]+") ]
    [] None.

(** Two services registered in one call, each with a middleware and
    one alternate route. *)
Definition service_a : WebService.t :=
  WebService.mk [] [WebRoute.mk "/a/.*" "GET" (mark "handler" "a")]
                [mark "middleware" "a"] None.
Definition service_b : WebService.t :=
  WebService.mk [] [WebRoute.mk "/b/.*" "GET" (mark "handler" "b")]
                [mark "middleware" "b"] None.

Definition request_for (method uri : string) : World :=
  mkWorld (gin.Context.mk (gin.Request.mk method uri uri "" ∅)
                          (gin.ResponseWriter.mk 404 (-1)) ∅ "127.0.0.1")
          [] [] 0.

(** A new server with [services] registered in one call, then one
    request that gin's router has no route for: the keys the handlers
    that ran have left in its context. *)
Definition dispatched (lv : loopvar) (services : list WebService.t)
  (method uri : string) : option (list (string * gin.any)) :=
  match NewWebServer (fun x => x) (WebServerConfig.mk "" 9091) with
  | None => None
  | Some (w, _) =>
    match ServiceRegister lv (mkHeap [] []) [] w "" services with
    | None => None
    | Some (hp, _, w') =>
      match AltRouter hp w' (request_for method uri) with
      | Returned x | Panicked x => Some (map_to_list (gin.Context.Keys (ctx x)))
      end
    end
  end.

(** A server holding the alternate route [/articles/.*], registered
    for GET, and the cells its closure refers to. *)
Definition articles_re : regexp.Regexp :=
  default regexp.EmptyMatch (regexp.Compile "/articles/.*").

Definition articles_server : WebServer :=
  mkWebServer (WebServerConfig.mk "" 9091) (mkEngine [] [])
              [iRoute.mk articles_re "GET" (mkClosure 0 0)] None.

Definition articles_heap : Heap :=
  mkHeap [articles_service] [WebRoute.mk "/articles/.*" "GET" (mark "handler" "/articles/.*")].

Definition chrome_mobile_ua : string :=
  "Mozilla/5.0 (Linux; Android 10; SM-G973F) AppleWebKit/537.36 (KHTML, like Gecko) Chrome/91.0.4472.124 Mobile Safari/537.36".

(** A request from Telegram's link-preview fetcher, without the trust
    header. *)
Definition telegram_ctx : gin.Context.t :=
  gin.Context.mk
    (gin.Request.mk "GET" "/" "/" "" {[ "User-Agent"%string := ["TelegramBot (like TwitterBot)"%string] ]})
    (gin.ResponseWriter.mk 200 (-1)) ∅ "149.154.161.1".

Definition firefox_ua : string :=
  "Mozilla/5.0 (X11; Linux x86_64; rv:89.0) Gecko/20100101 Firefox/89.0".

(** The last pattern of the table, the one for Firefox, and what it
    finds in [firefox_ua]. *)
Definition firefox_re : regexp.Regexp :=
  default regexp.EmptyMatch (uaCompiled !! 7%nat).

Definition firefox_matches : regexp.caps :=
  default [] (regexp.FindStringSubmatchIndex firefox_re firefox_ua).

(** A new server on port 9091 with [articles_service] registered. *)
Definition test_config : WebServerConfig.t := WebServerConfig.mk "" 9091.

Definition test_new : WebServer * globalState :=
  default (test_server, mkGlobalState false 0) (NewWebServer (fun x => x) test_config).

Definition test_registered : Heap * list zerolog.Event * WebServer :=
  default (mkHeap [] [], [], test_server)
          (ServiceRegister PerLoop (mkHeap [] []) [] (fst test_new) "" [articles_service]).

Definition test_requests : list (World * option (list HandlerFunc)) :=
  [ (request_for "GET" "/articles/42", None);
    (request_for "GET" "/", Some [mark "handler" "index"]) ].


(* ------------------------------------------------------------------ *)
(** ** Tactics *)

Ltac no_if t :=
  lazymatch t with
  | context [if _ then _ else _] => fail
  | _ => idtac
  end.

(** Case analysis on the comparisons of integers in the goal, innermost
    first, closing the impossible cases by arithmetic. *)
Ltac split_comparisons :=
  repeat match goal with
         | |- context [Z.eqb ?a ?b] =>
           no_if a; no_if b; destruct (Z.eqb_spec a b); try lia; cbn [andb orb negb]
         | |- context [Z.leb ?a ?b] =>
           no_if a; no_if b; destruct (Z.leb_spec a b); try lia; cbn [andb orb negb]
         | |- context [Z.ltb ?a ?b] =>
           no_if a; no_if b; destruct (Z.ltb_spec a b); try lia; cbn [andb orb negb]
         end.

(** Case analysis on the shape of the input and on the length tests of
    the decoder. *)
Ltac decode_cases :=
  repeat match goal with
         | |- context [match ?l with [] => _ | _ :: _ => _ end] => destruct l
         | |- context [if negb ?b then _ else _] => destruct b eqn:?; cbn [negb]
         | |- context [if (?n <=? ?m)%nat then _ else _] =>
           destruct (Nat.leb_spec n m)
         end.

(** Runes below [utf8.RuneSelf]. *)
Definition is_ascii (r : Z) : Prop := 0 <= r < 0x80.

(* ================================================================== *)
(** * Properties *)

(** ** Shutdown and RunBg *)

(** C9. [Shutdown] returns nil whatever the context, whether or not the
    server was started in the background, and whatever the underlying
    graceful shutdown reports: its error is dropped. *)
Theorem Shutdown_always_nil
  (srv_Shutdown : http_Server -> context_Context -> option error)
  (w : WebServer) (log : list zerolog.Event) (ctx : context_Context) :
  snd (Shutdown srv_Shutdown w log ctx) = None.
Proof.
  unfold Shutdown. destruct (srv w); reflexivity.
Qed.

Lemma Shutdown_never_started srv_Shutdown w log ctx :
  srv w = None -> Shutdown srv_Shutdown w log ctx = (log, None).
Proof. intros H. unfold Shutdown. now rewrite H. Qed.

Lemma Shutdown_drops_error srv_Shutdown w log ctx server e :
  srv w = Some server -> srv_Shutdown server ctx = Some e ->
  Shutdown srv_Shutdown w log ctx = (log ++ [Info_Msg [] "webserver shutdown"], None).
Proof. intros H _. unfold Shutdown. now rewrite H. Qed.

(** C8. When the listener fails before the initialization timeout,
    [RunBg] returns a non-nil error that wraps the fault; when the
    timeout elapses with the listener still serving it returns nil; the
    two results differ. *)
Theorem RunBg_startup_fault (w : WebServer) (log : list zerolog.Event) (e : error) :
  is_ErrServerClosed e = false ->
  snd (RunBg w log (Stopped e)) = Some (Errorf_w "can't start web server: " e)
  /\ snd (RunBg w log Serving) = None
  /\ snd (RunBg w log (Stopped e)) <> snd (RunBg w log Serving).
Proof.
  intros He. unfold RunBg, startupError. rewrite He. cbn. repeat split. discriminate.
Qed.

Lemma RunBg_startup_fault_witness :
  snd (RunBg test_server [] (Stopped address_in_use))
    = Some (Errorf_w "can't start web server: " address_in_use)
  /\ snd (RunBg test_server [] Serving) = None
  /\ snd (RunBg test_server [] (Stopped address_in_use)) <> snd (RunBg test_server [] Serving).
Proof. apply (RunBg_startup_fault test_server [] address_in_use). reflexivity. Defined.

(** ** The access logger *)

Lemma requestID_middleware_handoff (next : Go unit) (s : St) :
  requestID_middleware next s = next (handoff s).
Proof. reflexivity. Qed.

Lemma httpLogger_unfold (next : Go unit) (s : St) :
  httpLogger next s =
  match next s with
  | Panic s' => Panic s'
  | Ok _ s' =>
    match gin.Get "httpNoLogging" (ctx (world s')) with
    | Some _ => Ok tt s'
    | None =>
      Ok tt (emit (access_record (world s) (world s')
                     match gin.Get "requestID" (ctx (world s)) with
                     | Some (gin.AUint64 n) => n
                     | _ => 0
                     end) s')
    end
  end.
Proof.
  unfold httpLogger, mbind, Go_bind, time_Now, c_Request, c_Get, gets, mret, Go_ret.
  cbn. destruct (next s) as [[] s'|s']; [|reflexivity].
  destruct (gin.Get "httpNoLogging" (ctx (world s'))); [reflexivity|].
  unfold http_Info, modify, emit, access_record, logged_path.
  destruct (String.eqb _ ""); reflexivity.
Qed.

(** C5. A request that completes gets exactly one access-log record
    when the key [httpNoLogging] is absent once the chain below the
    logger has returned, and none when a handler has set it.  The record
    holds the elapsed milliseconds, the client address, the path (with
    [?] and the query string when that is not empty), the method, the
    status code, the byte count and the sequence number the request was
    given. *)
Theorem access_log_record (next : Go unit) (s s' : St) :
  next (handoff s) = Ok tt s' ->
  requestID_middleware (httpLogger next) s =
  Ok tt match gin.Get "httpNoLogging" (ctx (world s')) with
        | Some _ => s'
        | None => emit (access_record (world s) (world s')
                          (wrap64 (requestCounter (state s) + 1))) s'
        end.
Proof.
  intros Hnext. rewrite requestID_middleware_handoff, httpLogger_unfold, Hnext.
  destruct (gin.Get "httpNoLogging" _); [reflexivity|].
  replace (gin.Get "requestID" (ctx (world (handoff s))))
    with (Some (gin.AUint64 (wrap64 (requestCounter (state s) + 1)))).
  - reflexivity.
  - symmetry. unfold handoff, with_ctx, gin.Get, gin.Set_; cbn.
    apply lookup_insert_eq.
Qed.

Lemma access_log_record_witness :
  requestID_middleware (httpLogger (mret tt)) test_state =
  Ok tt (emit (access_record (world test_state) (world (handoff test_state)) 1)
              (handoff test_state)).
Proof.
  apply (access_log_record (mret tt) test_state (handoff test_state)). reflexivity.
Defined.

(** C10. The access log is suppressed by the presence of the key
    [httpNoLogging], not by its value: whatever value (false included)
    the key holds when the chain below the logger returns, the logger
    adds no record. *)
Theorem no_logging_by_key_presence (next : Go unit) (s s' : St) (v : gin.any) :
  next s = Ok tt s' ->
  gin.Get "httpNoLogging" (ctx (world s')) = Some v ->
  httpLogger next s = Ok tt s'.
Proof.
  intros Hnext Hkey. rewrite httpLogger_unfold, Hnext, Hkey. reflexivity.
Qed.

Lemma no_logging_by_key_presence_witness :
  httpLogger no_logging_false test_state
  = Ok tt (with_ctx (gin.Set_ "httpNoLogging" (gin.ABool false)) test_state).
Proof.
  apply (no_logging_by_key_presence no_logging_false test_state _ (gin.ABool false)).
  - reflexivity.
  - reflexivity.
Defined.

(** ** The alternate router *)

Lemma alt_scan_first_match (hp : Heap) (before after : list iRoute.t)
  (route : iRoute.t) (x : World) :
  Forall (fun r => regexp.MatchString (iRoute.Path r) (request_URI x) = false) before ->
  regexp.MatchString (iRoute.Path route) (request_URI x) = true ->
  alt_scan hp (before ++ route :: after) x = call_closure hp (iRoute.Handler route) x.
Proof.
  unfold request_URI. intros Hbefore Hroute.
  induction Hbefore as [|r before Hr _ IH]; cbn.
  - now rewrite Hroute.
  - now rewrite Hr.
Qed.

Lemma alt_scan_no_match (hp : Heap) (l : list iRoute.t) (x : World) :
  Forall (fun r => regexp.MatchString (iRoute.Path r) (request_URI x) = false) l ->
  alt_scan hp l x = Returned x.
Proof.
  unfold request_URI. induction 1 as [|r l Hr _ IH]; cbn; [reflexivity|].
  now rewrite Hr.
Qed.

(** C6. The match decision of [AltRouter] ignores the method: the
    first route whose pattern matches the URI is dispatched whatever
    method it was registered with and whatever the method of the
    request. *)
Theorem AltRouter_ignores_method (hp : Heap) (w : WebServer)
  (before after : list iRoute.t) (re : regexp.Regexp) (f : closure)
  (x : World) (registered method : string) :
  altRoutes w = before ++ iRoute.mk re registered f :: after ->
  Forall (fun r => regexp.MatchString (iRoute.Path r) (request_URI x) = false) before ->
  regexp.MatchString re (request_URI x) = true ->
  AltRouter hp w (with_method method x) = call_closure hp f (with_method method x).
Proof.
  intros Hw Hbefore Hre. unfold AltRouter. rewrite Hw.
  apply (alt_scan_first_match hp before after (iRoute.mk re registered f)); assumption.
Qed.

Lemma AltRouter_ignores_method_witness :
  AltRouter articles_heap articles_server
            (with_method "POST" (request_for "GET" "/articles/42"))
  = call_closure articles_heap (mkClosure 0 0)
                 (with_method "POST" (request_for "GET" "/articles/42")).
Proof.
  apply (AltRouter_ignores_method articles_heap articles_server [] [] articles_re
           (mkClosure 0 0) (request_for "GET" "/articles/42") "GET" "POST").
  - reflexivity.
  - constructor.
  - vm_compute. reflexivity.
Defined.

(** C2, on the code.  One service registers ["/articles/.*"] and then
    ["/articles/[0-9]+"]; the request is for ["/articles/42"].  With one
    variable [route] for the whole [for] statement (Go before 1.22), the
    first entry is selected, but the function stored in it reads [route]
    when it is called and finds the last route of the service: the
    handler of the second entry runs. *)
Theorem alt_route_runs_last_handler_of_service :
  dispatched PerLoop [articles_service] "GET" "/articles/42"
  = Some [("handler", gin.AString "/articles/[0-9]+")].
Proof. vm_compute. reflexivity. Qed.

(** With a variable per iteration (Go 1.22 and later) the handler of
    the first entry runs. *)
Lemma alt_route_per_iteration_first_handler :
  dispatched PerIteration [articles_service] "GET" "/articles/42"
  = Some [("handler", gin.AString "/articles/.*")].
Proof. vm_compute. reflexivity. Qed.

(** The variable [s] is shared in the same way: of two services
    registered in one call, a route of the first runs behind the
    middlewares of the second. *)
Lemma alt_route_runs_middlewares_of_last_service :
  dispatched PerLoop [service_a; service_b] "GET" "/a/1"
  = Some [("middleware", gin.AString "b"); ("handler", gin.AString "a")]
  /\ dispatched PerIteration [service_a; service_b] "GET" "/a/1"
     = Some [("middleware", gin.AString "a"); ("handler", gin.AString "a")].
Proof. split; vm_compute; reflexivity. Qed.

(** ** DetectUA *)

(** C3, on the code.  For a Chrome-Mobile user agent with version
    91.0.4472.124 the version is 91, 0, 4472, but the family is the text
    of the first capture group, ["Chrome"]: the family name of the
    descriptor, ["Chrome Mobile"], is never used. *)
Theorem DetectUA_chrome_mobile :
  snd <$> DetectUA [] chrome_mobile_ua = Some (UserAgent.mk "Chrome" 91 0 4472)
  /\ (fun r => UserAgent.Is (snd r) [UA_CHROME_MOBILE]) <$> DetectUA [] chrome_mobile_ua
     = Some false.
Proof. split; vm_compute; reflexivity. Qed.

(** ** The robots detector *)

Lemma matchRune_ci_eq (r0 r : Z) :
  0 <= r0 < 0x80 -> regexp.matchRune r0 true r = ci_eq r0 r.
Proof.
  intros H.
  assert (Hcases : r0 = 0x4B \/ r0 = 0x6B \/ r0 = 0x53 \/ r0 = 0x73
            \/ (0x41 <= r0 <= 0x5A /\ r0 <> 0x4B /\ r0 <> 0x53)
            \/ (0x61 <= r0 <= 0x7A /\ r0 <> 0x6B /\ r0 <> 0x73)
            \/ (r0 < 0x41 \/ 0x5A < r0 < 0x61 \/ 0x7A < r0)) by lia.
  unfold regexp.matchRune, ci_eq, fold_key, unicode.SimpleFold, utf8.between.
  destruct Hcases as [->|[->|[->|[->|[Hc|[Hc|Hc]]]]]];
    split_comparisons; try reflexivity; try lia.
Qed.

Lemma run_literals (l : list Z) (k : regexp.cont) (t : regexp.text) (pos : nat)
  (c : regexp.caps) :
  Forall is_ascii l ->
  regexp.run (fold_literals l) k t pos c =
  if ci_prefix l (map fst t)
  then k (drop (length l) t) (pos + sum_list (map snd (take (length l) t)))%nat c
  else None.
Proof.
  intros Hl. revert t pos.
  induction Hl as [|r l Hr Hl IH]; intros t pos.
  - cbn. now rewrite drop_0, Nat.add_0_r.
  - assert (Hstep : regexp.run (fold_literals (r :: l)) k t pos c
                    = regexp.one_rune (regexp.matchRune r true)
                                      (regexp.run (fold_literals l) k) t pos c)
      by (destruct l; reflexivity).
    rewrite Hstep. unfold regexp.one_rune.
    destruct t as [|[x w] t]; [reflexivity|].
    cbn [map fst ci_prefix]. rewrite (matchRune_ci_eq r x Hr).
    destruct (ci_eq r x); [|reflexivity].
    rewrite IH. cbn [andb length drop take map snd sum_list sum_list_with].
    now rewrite Nat.add_assoc.
Qed.

Lemma search_literals (l : list Z) (t : regexp.text) (pos : nat) :
  Forall is_ascii l ->
  is_Some (regexp.search (fold_literals l) t pos) <-> ci_contains l (map fst t) = true.
Proof.
  intros Hl. revert pos. induction t as [|[x w] t IH]; intros pos.
  - cbn [regexp.search map ci_contains]. rewrite run_literals by assumption.
    cbn [map]. destruct (ci_prefix l []); cbn.
    + split; [reflexivity|eauto].
    + split; [intros [? ?]; discriminate|discriminate].
  - cbn [regexp.search]. rewrite run_literals by assumption.
    change (map fst ((x, w) :: t)) with (x :: map fst t).
    cbn [ci_contains].
    destruct (ci_prefix l (x :: map fst t)); cbn [orb].
    + split; [reflexivity|eauto].
    + apply IH.
Qed.

Lemma MatchString_literals (l : list Z) (ua : string) :
  Forall is_ascii l ->
  regexp.MatchString (fold_literals l) ua = ci_contains l (rune_values ua).
Proof.
  intros Hl. unfold regexp.MatchString, regexp.FindStringSubmatchIndex, rune_values.
  pose proof (search_literals l (utf8.runes ua) 0 Hl) as H.
  destruct (ci_contains l (map fst (utf8.runes ua))).
  - apply bool_decide_eq_true. now apply H.
  - apply bool_decide_eq_false. intros Hs. apply H in Hs. discriminate.
Qed.

Lemma compile_robot_names :
  compile_names robotsUserAgent []
  = Some (map (fun name => fold_literals (rune_values name)) robotsUserAgent).
Proof. vm_compute. reflexivity. Qed.

Lemma robot_names_ascii :
  Forall (fun name => Forall is_ascii (rune_values name)) robotsUserAgent.
Proof.
  unfold robotsUserAgent.
  repeat (apply List.Forall_cons;
          [ cbv beta;
            match goal with
            | |- Forall _ (rune_values ?name) =>
              let l := eval vm_compute in (rune_values name) in
              change (rune_values name) with l
            end;
            repeat (apply List.Forall_cons; [unfold is_ascii; lia|]); apply List.Forall_nil
          | ]).
  apply List.Forall_nil.
Qed.

Lemma Set_robot_twice (b b' : bool) (c : gin.Context.t) :
  gin.Set_ "robot" (gin.ABool b') (gin.Set_ "robot" (gin.ABool b) c)
  = gin.Set_ "robot" (gin.ABool b') c.
Proof.
  unfold gin.Set_; cbn. f_equal. apply insert_insert_eq.
Qed.

Lemma with_ctx_Set_robot_twice (b b' : bool) (s : St) :
  with_ctx (gin.Set_ "robot" (gin.ABool b')) (with_ctx (gin.Set_ "robot" (gin.ABool b)) s)
  = with_ctx (gin.Set_ "robot" (gin.ABool b')) s.
Proof.
  unfold with_ctx; cbn. now rewrite Set_robot_twice.
Qed.

Lemma robots_scan_flag (regexps : list regexp.Regexp) (b : bool) (s : St) :
  robots_scan regexps (with_ctx (gin.Set_ "robot" (gin.ABool b)) s)
  = Ok tt (with_ctx
             (gin.Set_ "robot"
                (gin.ABool (b || existsb (fun re => regexp.MatchString re
                                                      (gin.UserAgent (ctx (world s))))
                                         regexps)))
             s).
Proof.
  revert b. induction regexps as [|re regexps IH]; intros b.
  - cbn. now rewrite orb_false_r.
  - cbn [robots_scan existsb].
    unfold mbind, Go_bind, gets. cbn [with_ctx world ctx state].
    change (gin.UserAgent (gin.Set_ "robot" (gin.ABool b) (ctx (world s))))
      with (gin.UserAgent (ctx (world s))).
    destruct (regexp.MatchString re (gin.UserAgent (ctx (world s)))).
    + unfold c_Set, modify.
      change (mkSt (state s)
                (mkWorld (gin.Set_ "robot" (gin.ABool b) (ctx (world s)))
                   (LoggerHttp (world s)) (Logger (world s)) (clock (world s))))
        with (with_ctx (gin.Set_ "robot" (gin.ABool b)) s).
      rewrite with_ctx_Set_robot_twice, (IH true).
      now rewrite orb_true_l, orb_true_r.
    + unfold mret, Go_ret.
      change (mkSt (state s)
                (mkWorld (gin.Set_ "robot" (gin.ABool b) (ctx (world s)))
                   (LoggerHttp (world s)) (Logger (world s)) (clock (world s))))
        with (with_ctx (gin.Set_ "robot" (gin.ABool b)) s).
      now rewrite (IH b).
Qed.

Lemma existsb_names_ci (ua : string) (names : list string) :
  Forall (fun name => Forall is_ascii (rune_values name)) names ->
  existsb (fun re => regexp.MatchString re ua)
          (map (fun name => fold_literals (rune_values name)) names)
  = existsb (fun name => ci_substring name ua) names.
Proof.
  induction 1 as [|name names Hname _ IH]; cbn; [reflexivity|].
  rewrite IH. f_equal. now apply MatchString_literals.
Qed.

Lemma robotsDetect_sets_flag :
  exists robots,
    robotsDetect robotsUserAgent = Some robots
    /\ forall (next : Go unit) (s : St),
         robots next s
         = next (with_ctx (gin.Set_ "robot"
                             (gin.ABool (robot_flag robotsUserAgent (ctx (world s))))) s).
Proof.
  unfold robotsDetect. rewrite compile_robot_names.
  eexists. split; [reflexivity|].
  intros next s. unfold robot_flag, mbind, Go_bind, gets. cbn beta iota.
  destruct (negb (String.eqb (gin.GetHeader "X-Robot" (ctx (world s))) "")).
  - reflexivity.
  - unfold c_Set at 1, modify at 1. cbn beta iota.
    rewrite (robots_scan_flag _ false s). cbn [orb].
    rewrite (existsb_names_ci _ _ robot_names_ascii). reflexivity.
Qed.

(** C4. The handler that [robotsDetect] builds from the configured
    names sets the context key [robot] and then runs the handlers below
    it.  The flag is true when the header [X-Robot] has a non-empty
    value, whatever the user agent; otherwise it is true exactly when
    one of the crawler names is a case-insensitive substring of the user
    agent.  The user agent ["TelegramBot (like TwitterBot)"] without the
    header gives true. *)
Theorem robotsDetect_flag :
  exists robots,
    robotsDetect robotsUserAgent = Some robots
    /\ (forall (next : Go unit) (s : St),
          robots next s
          = next (with_ctx (gin.Set_ "robot"
                              (gin.ABool (robot_flag robotsUserAgent (ctx (world s))))) s))
    /\ robot_flag robotsUserAgent telegram_ctx = true.
Proof.
  destruct robotsDetect_sets_flag as (robots & Hrobots & Hflag).
  exists robots. split; [assumption|]. split; [assumption|].
  vm_compute. reflexivity.
Qed.

(** ** UTF-8 decoding and positions *)

Lemma lor_lower_l (x y : Z) : 0 <= x -> 0 <= y -> x <= Z.lor x y.
Proof.
  intros Hx Hy.
  pose proof (Zbitwise.Z.add_lor_land x y) as Hsum.
  assert (Z.land x y <= y).
  { rewrite <- (Z2N.id x), <- (Z2N.id y) by assumption.
    rewrite <- N2Z.inj_land. apply N2Z.inj_le, N.land_le_r. }
  lia.
Qed.

Lemma lor_lower_r (x y : Z) : 0 <= x -> 0 <= y -> y <= Z.lor x y.
Proof. intros. rewrite Z.lor_comm. now apply lor_lower_l. Qed.

Lemma byteval_range (a : ascii) : 0 <= byteval a < 256.
Proof.
  unfold byteval. pose proof (N_ascii_bounded a). lia.
Qed.

Lemma land_low (x : Z) (n : Z) : 0 <= n -> Z.land x (Z.ones n) = x mod 2 ^ n.
Proof. apply Z.land_ones. Qed.

Lemma first_spec (s0 : Z) (sz : nat) (lo hi : Z) :
  utf8.first s0 = Some (sz, lo, hi) ->
  (0x80 <= lo /\ hi <= 0xBF) /\
  ((sz = 2%nat /\ 0xC2 <= s0 <= 0xDF)
  \/ (sz = 3%nat /\ s0 = 0xE0 /\ lo = 0xA0)
  \/ (sz = 3%nat /\ 0xE1 <= s0 <= 0xEF)
  \/ (sz = 4%nat /\ s0 = 0xF0 /\ lo = 0x90)
  \/ (sz = 4%nat /\ 0xF1 <= s0 <= 0xF4)).
Proof.
  unfold utf8.first. split_comparisons; intros Hfirst; inversion Hfirst; subst; lia.
Qed.

(** A multi-byte sequence never decodes to an ASCII rune. *)
Lemma decoded_not_ascii (s0 b1 x y : Z) (sz : nat) (lo hi : Z) :
  utf8.first s0 = Some (sz, lo, hi) ->
  utf8.between lo hi b1 = true ->
  0 <= b1 < 256 -> 0 <= x -> 0 <= y ->
  ((sz <= 2)%nat -> 0x80 <= Z.lor (Z.shiftl (Z.land s0 0x1F) 6) (utf8.maskx b1))
  /\ ((2 < sz <= 3)%nat ->
      0x80 <= Z.lor (Z.lor (Z.shiftl (Z.land s0 0x0F) 12) (Z.shiftl (utf8.maskx b1) 6)) x)
  /\ ((3 < sz)%nat ->
      0x80 <= Z.lor (Z.lor (Z.lor (Z.shiftl (Z.land s0 0x07) 18)
                                  (Z.shiftl (utf8.maskx b1) 12)) x) y).
Proof.
  intros Hfirst Hb1 Hrange Hx Hy.
  apply first_spec in Hfirst as [[Hlo80 HhiBF] Hfirst].
  unfold utf8.between in Hb1. apply andb_prop in Hb1 as [Hlo Hhi].
  apply Z.leb_le in Hlo, Hhi.
  unfold utf8.maskx.
  change 0x1F with (Z.ones 5). change 0x0F with (Z.ones 4).
  change 0x07 with (Z.ones 3). change 0x3F with (Z.ones 6).
  rewrite !land_low by lia. rewrite !Z.shiftl_mul_pow2 by lia.
  assert (0 <= s0 mod 2 ^ 5 /\ 0 <= s0 mod 2 ^ 4 /\ 0 <= s0 mod 2 ^ 3 /\ 0 <= b1 mod 2 ^ 6)
    as (H5 & H4 & H3 & H6)
    by (repeat split; apply Z.mod_pos_bound; lia).
  assert (Hm : forall a b, 0 <= a -> 0 <= b -> 0 <= Z.lor a b)
    by (intros; now apply Z.lor_nonneg).
  repeat split; intros.
  - etransitivity; [|apply lor_lower_l; lia]. change (2 ^ 5) with 32 in *.
    change (2 ^ 6) with 64 in *. Z.div_mod_to_equations. lia.
  - etransitivity; [|apply lor_lower_l; [apply Hm|]; lia].
    destruct (Z.eq_dec s0 0xE0) as [->|].
    + etransitivity; [|apply lor_lower_r; lia].
      change (2 ^ 6) with 64 in *. change (2 ^ 12) with 4096 in *.
      Z.div_mod_to_equations. lia.
    + etransitivity; [|apply lor_lower_l; lia].
      change (2 ^ 4) with 16 in *. change (2 ^ 12) with 4096 in *.
      Z.div_mod_to_equations. lia.
  - etransitivity; [|apply lor_lower_l; [apply Hm; [apply Hm|]|]; lia].
    etransitivity; [|apply lor_lower_l; [apply Hm|]; lia].
    destruct (Z.eq_dec s0 0xF0) as [->|].
    + etransitivity; [|apply lor_lower_r; lia].
      change (2 ^ 6) with 64 in *. change (2 ^ 12) with 4096 in *.
      Z.div_mod_to_equations. lia.
    + etransitivity; [|apply lor_lower_l; lia].
      change (2 ^ 3) with 8 in *. change (2 ^ 18) with 262144 in *.
      Z.div_mod_to_equations. lia.
Qed.

Lemma DecodeRune_width_pos (a : ascii) (rest : list ascii) :
  (1 <= snd (utf8.DecodeRuneInString (a :: rest)))%nat.
Proof.
  unfold utf8.DecodeRuneInString.
  destruct (byteval a <? 0x80); [cbn; lia|].
  destruct (utf8.first (byteval a)) as [[[sz lo] hi]|]; [|cbn; lia].
  decode_cases; cbn; lia.
Qed.

Lemma maskx_nonneg (b : Z) : 0 <= utf8.maskx b.
Proof. unfold utf8.maskx. apply Z.land_nonneg. right. lia. Qed.

Lemma DecodeRune_ascii (a : ascii) (rest : list ascii) :
  fst (utf8.DecodeRuneInString (a :: rest)) < 0x80 ->
  utf8.DecodeRuneInString (a :: rest) = (byteval a, 1%nat).
Proof.
  unfold utf8.DecodeRuneInString.
  destruct (byteval a <? 0x80); [reflexivity|].
  destruct (utf8.first (byteval a)) as [[[sz lo] hi]|] eqn:Hfirst;
    [|cbn; unfold utf8.RuneError; lia].
  destruct rest as [|a1 s2]; [cbn; unfold utf8.RuneError; lia|].
  destruct (utf8.between lo hi (byteval a1)) eqn:Hb; cbn [negb];
    [|cbn; unfold utf8.RuneError; lia].
  pose proof (fun x y => decoded_not_ascii _ _ x y _ _ _ Hfirst Hb (byteval_range a1))
    as Hdec.
  destruct (Nat.leb_spec sz 2) as [Hsz|Hsz].
  { cbn [fst]. destruct (Hdec 0 0) as [H2 _]; [lia|lia|].
    specialize (H2 Hsz). intros Hr. exfalso. lia. }
  destruct s2 as [|a2 s3]; [cbn; unfold utf8.RuneError; lia|].
  destruct (utf8.between 0x80 0xBF (byteval a2)); cbn [negb];
    [|cbn; unfold utf8.RuneError; lia].
  destruct (Nat.leb_spec sz 3) as [Hsz3|Hsz3].
  { cbn [fst].
    destruct (Hdec (utf8.maskx (byteval a2)) 0) as (_ & H3 & _);
      [apply maskx_nonneg|lia|].
    specialize (H3 (conj Hsz Hsz3)). intros Hr. exfalso. lia. }
  destruct s3 as [|a3 s4]; [cbn; unfold utf8.RuneError; lia|].
  destruct (utf8.between 0x80 0xBF (byteval a3)); cbn [negb];
    [|cbn; unfold utf8.RuneError; lia].
  cbn [fst].
  destruct (Hdec (Z.shiftl (utf8.maskx (byteval a2)) 6) (utf8.maskx (byteval a3)))
    as (_ & _ & H4);
    [apply Z.shiftl_nonneg, maskx_nonneg|apply maskx_nonneg|].
  specialize (H4 Hsz3). intros Hr. exfalso. lia.
Qed.

Lemma runes_from_skip (s : list ascii) (k : nat) :
  utf8.runes_from k s = utf8.runes_from 0 (drop k s).
Proof.
  revert k. induction s as [|a s IH]; intros [|k]; try reflexivity.
  cbn [utf8.runes_from drop]. apply IH.
Qed.

Lemma aligned_step (src : list ascii) (r : Z) (w : nat) (t : regexp.text) (pos : nat) :
  aligned src ((r, w) :: t) pos ->
  aligned src t (pos + w)
  /\ exists a rest, drop pos src = a :: rest
                    /\ utf8.DecodeRuneInString (a :: rest) = (r, w).
Proof.
  unfold aligned. intros H.
  destruct (drop pos src) as [|a rest] eqn:Hdrop; [discriminate|].
  change (utf8.runes_from 0 (a :: rest))
    with (utf8.DecodeRuneInString (a :: rest)
            :: utf8.runes_from (snd (utf8.DecodeRuneInString (a :: rest)) - 1) rest) in H.
  pose proof (DecodeRune_width_pos a rest) as Hw.
  remember (utf8.DecodeRuneInString (a :: rest)) as rw eqn:Hrw.
  injection H as <- Ht. cbn [snd] in *.
  split.
  - rewrite Ht, runes_from_skip. f_equal.
    rewrite <- drop_drop, Hdrop. destruct w as [|w]; [lia|].
    cbn [drop]. f_equal. lia.
  - exists a, rest. split; [reflexivity|now symmetry].
Qed.

Lemma aligned_digit (src : list ascii) (r : Z) (w : nat) (t : regexp.text) (pos : nat) :
  aligned src ((r, w) :: t) pos ->
  regexp.in_class false [(0x30, 0x39)] r = true ->
  w = 1%nat /\ exists a, src !! pos = Some a /\ is_digit a = true.
Proof.
  intros Hal Hr. apply aligned_step in Hal as [_ (a & rest & Hdrop & Hdec)].
  unfold regexp.in_class in Hr. cbn in Hr. rewrite orb_false_r in Hr.
  assert (Hlt : fst (utf8.DecodeRuneInString (a :: rest)) < 0x80).
  { rewrite Hdec. cbn. unfold utf8.between in Hr.
    apply andb_prop in Hr as [_ Hr]. apply Z.leb_le in Hr. lia. }
  rewrite (DecodeRune_ascii a rest Hlt) in Hdec. injection Hdec as Hr' Hw.
  split; [now symmetry|]. exists a. split.
  - rewrite <- (Nat.add_0_r pos), <- lookup_drop, Hdrop. reflexivity.
  - unfold is_digit. now rewrite Hr'.
Qed.

(** ** The capture registers of a match *)

Lemma one_rune_ok (src : list ascii) (p : Z -> bool) (k : regexp.cont) :
  K_ok src k -> K_ok src (regexp.one_rune p k).
Proof.
  intros Hk t pos c c' Hal Hc. unfold regexp.one_rune.
  destruct t as [|[r w] t]; [discriminate|].
  destruct (p r); [|discriminate].
  apply aligned_step in Hal as [Hal _]. now apply Hk.
Qed.

Lemma orelse_Some (x y : option regexp.caps) (c : regexp.caps) :
  regexp.orelse x y = Some c -> x = Some c \/ y = Some c.
Proof. destruct x; cbn; auto. Qed.

Lemma iterate_ok (src : list ascii) (step : regexp.cont -> regexp.cont) (k : regexp.cont) :
  (forall k', K_ok src k' -> K_ok src (step k')) ->
  K_ok src k -> forall fuel, K_ok src (regexp.iterate step k fuel).
Proof.
  intros Hstep Hk fuel. induction fuel as [|fuel IH]; [exact Hk|].
  intros t pos c c' Hal Hc H. cbn [regexp.iterate] in H.
  apply orelse_Some in H as [H|H]; [|now apply (Hk t pos c)].
  revert H. apply Hstep; [|assumption..].
  intros t1 pos1 c1 c1' Hal1 Hc1. destruct (pos <? pos1)%nat; [|discriminate].
  now apply IH.
Qed.

Lemma good_insert_other (src : list ascii) (n : nat) (v : option (nat * nat))
  (c : regexp.caps) :
  version_group n = false -> good src c -> good src (<[n := v]> c).
Proof.
  intros Hn Hc i b e Hi Hlook.
  apply list_lookup_insert_Some in Hlook as [(-> & _ & _)|[_ Hlook]].
  - congruence.
  - now apply (Hc i).
Qed.

Lemma good_insert_digits (src : list ascii) (n b e : nat) (c : regexp.caps) :
  digits_between src b e -> good src c -> good src (<[n := Some (b, e)]> c).
Proof.
  intros Hbe Hc i b' e' Hi Hlook.
  apply list_lookup_insert_Some in Hlook as [(-> & Heq & _)|[_ Hlook]].
  - injection Heq as <- <-. exact Hbe.
  - now apply (Hc i).
Qed.

Lemma one_digit_from (src : list ascii) (pos0 : nat) (k : regexp.cont) :
  K_from src pos0 k ->
  K_from src pos0 (regexp.one_rune (regexp.in_class false [(0x30, 0x39)]) k).
Proof.
  intros Hk t pos c c' Hal Hle Hdig Hc. unfold regexp.one_rune.
  destruct t as [|[r w] t]; [discriminate|].
  destruct (regexp.in_class false [(48, 57)] r) eqn:Hr; [|discriminate].
  destruct (aligned_digit _ _ _ _ _ Hal Hr) as (-> & a & Ha & Hda).
  apply aligned_step in Hal as [Hal _].
  apply Hk; [assumption|lia| |assumption].
  intros j a' Hj Hlook.
  destruct (decide (j = pos)) as [->|Hne].
  - congruence.
  - apply (Hdig j a'); [lia|assumption].
Qed.

Lemma iterate_digits_from (src : list ascii) (pos0 : nat) (k : regexp.cont) (fuel : nat) :
  K_from src pos0 k ->
  K_from src pos0
    (regexp.iterate (regexp.one_rune (regexp.in_class false [(0x30, 0x39)])) k fuel).
Proof.
  intros Hk. induction fuel as [|fuel IH]; [exact Hk|].
  intros t pos c c' Hal Hle Hdig Hc H. cbn [regexp.iterate] in H.
  apply orelse_Some in H as [H|H]; [|now apply (Hk t pos c)].
  refine (one_digit_from src pos0 _ _ t pos c c' Hal Hle Hdig Hc H).
  intros t1 pos1 c1 c1' Hal1 Hle1 Hdig1 Hc1.
  destruct (pos <? pos1)%nat; [|discriminate]. now apply IH.
Qed.

Lemma is_digit_run_spec (a : regexp.Regexp) :
  is_digit_run a = true -> a = regexp.Plus (regexp.CharClass false [(0x30, 0x39)]).
Proof.
  destruct a as [| | | | | | | | |a| |]; try discriminate.
  destruct a as [| | |neg rs| | | | | | | |]; try discriminate.
  cbn. intros H. apply andb_prop in H as [Hneg Hrs].
  apply bool_decide_eq_true in Hrs. destruct neg; [discriminate|]. now subst.
Qed.

Lemma K_from_start (src : list ascii) (k : nat -> regexp.cont) :
  (forall pos0, K_from src pos0 (k pos0)) ->
  K_ok src (fun t pos c => k pos t pos c).
Proof.
  intros Hk t pos c c' Hal Hc H.
  apply (Hk pos t pos c c'); try assumption; [lia|].
  intros j a Hj. lia.
Qed.

Lemma run_ok (src : list ascii) (re : regexp.Regexp) :
  digit_groups re = true -> forall k, K_ok src k -> K_ok src (regexp.run re k).
Proof.
  induction re as [|r0 f| |neg rs| | |a IHa b IHb|a IHa b IHb|a IHa|a IHa|a IHa|n a IHa];
    cbn [digit_groups regexp.run]; intros Hdg k Hk.
  - exact Hk.
  - now apply one_rune_ok.
  - now apply one_rune_ok.
  - now apply one_rune_ok.
  - intros t pos c c' Hal Hc. destruct (pos =? 0)%nat; [|discriminate]. now apply Hk.
  - intros t pos c c' Hal Hc. destruct t; [|discriminate]. now apply Hk.
  - apply andb_prop in Hdg as [Ha Hb]. apply IHa; [assumption|]. now apply IHb.
  - apply andb_prop in Hdg as [Ha Hb]. intros t pos c c' Hal Hc H.
    apply orelse_Some in H as [H|H]; revert H; [apply IHa|apply IHb]; assumption.
  - intros t pos c c' Hal Hc.
    apply (iterate_ok src (regexp.run a) k (IHa Hdg) Hk); assumption.
  - apply IHa; [assumption|]. intros t pos c c' Hal Hc.
    apply (iterate_ok src (regexp.run a) k (IHa Hdg) Hk); assumption.
  - intros t pos c c' Hal Hc H.
    apply orelse_Some in H as [H|H]; revert H; [now apply IHa|now apply Hk].
  - destruct (version_group n) eqn:Hn.
    + apply is_digit_run_spec in Hdg as ->.
      apply (K_from_start src
               (fun pos0 =>
                  regexp.run (regexp.Plus (regexp.CharClass false [(48, 57)]))
                    (fun t' pos' c' => k t' pos' (<[n := Some (pos0, pos')]> c')))).
      intros pos0. cbn [regexp.run].
      apply one_digit_from.
      assert (Hk1 : K_from src pos0
                      (fun t' pos' c' => k t' pos' (<[n := Some (pos0, pos')]> c'))).
      { intros t1 pos1 c1 c1' Hal1 Hle1 Hdig1 Hc1. apply Hk; [assumption|].
        now apply good_insert_digits. }
      intros t1 pos1 c1 c1' Hal1 Hle1 Hdig1 Hc1.
      now apply (iterate_digits_from src pos0 _ (S (length t1)) Hk1).
    + intros t pos c c' Hal Hc. apply IHa; try assumption.
      intros t1 pos1 c1 c1' Hal1 Hc1. apply Hk; [assumption|].
      now apply good_insert_other.
Qed.

Lemma good_replicate (src : list ascii) (n : nat) : good src (replicate n None).
Proof.
  intros i b e _ H. apply lookup_replicate in H as [H _]. discriminate.
Qed.

Lemma search_good (src : list ascii) (re : regexp.Regexp) (t : regexp.text) (pos : nat)
  (m : regexp.caps) :
  digit_groups re = true -> aligned src t pos ->
  regexp.search re t pos = Some m -> good src m.
Proof.
  intros Hdg. revert pos. induction t as [|[r w] t IH]; intros pos Hal H;
    cbn [regexp.search] in H;
    destruct (regexp.run re _ _ pos _) as [c|] eqn:Hrun.
  1, 3: injection H as <-; revert Hrun;
    apply (run_ok src re Hdg); [|assumption|apply good_replicate];
    intros t1 pos1 c1 c1' _ Hc1 [= <-]; now apply good_insert_other.
  - discriminate.
  - apply aligned_step in Hal as [Hal _]. now apply (IH (pos + w)%nat).
Qed.

Lemma Find_good (re : regexp.Regexp) (s : string) (m : regexp.caps) :
  digit_groups re = true ->
  regexp.FindStringSubmatchIndex re s = Some m -> good (bytes_of s) m.
Proof.
  intros Hdg. apply search_good; [assumption|]. reflexivity.
Qed.

(** ** The version fields of DetectUA *)

Lemma bytes_of_substring (b n : nat) (s : string) :
  bytes_of (String.substring b n s) = take n (drop b (bytes_of s)).
Proof.
  revert b n. induction s as [|c s IH]; intros [|b] [|n]; cbn; try reflexivity.
  - f_equal. apply (IH 0%nat n).
  - apply (IH b 0%nat).
  - apply (IH b (S n)).
Qed.

Lemma group_text_digits (s : string) (m : regexp.caps) (i : nat) :
  good (bytes_of s) m -> version_group i = true ->
  forallb is_digit (bytes_of (regexp.group_text s m i)) = true.
Proof.
  intros Hm Hi. unfold regexp.group_text.
  destruct (m !! i) as [[[b e]|]|] eqn:Hlook; try reflexivity.
  rewrite bytes_of_substring. apply forallb_forall. intros a Ha.
  apply list_elem_of_In, list_elem_of_lookup in Ha as [j Hj].
  apply lookup_take_Some in Hj as [Hj Hlt]. rewrite lookup_drop in Hj.
  apply (Hm i b e Hi Hlook (b + j)%nat a); [lia|assumption].
Qed.

Lemma absent_or_non_numeric_is_zero (s : string) (m : regexp.caps) (i : nat) :
  good (bytes_of s) m -> version_group i = true ->
  numeric (regexp.group_text s m i) = false ->
  fst (strconv.ParseUint (regexp.group_text s m i)) = 0.
Proof.
  intros Hm Hi Hnum. pose proof (group_text_digits s m i Hm Hi) as Hdig.
  unfold numeric in Hnum.
  destruct (regexp.group_text s m i) as [|c t]; [reflexivity|].
  cbn [bytes_of list_ascii_of_string] in *. congruence.
Qed.

Lemma detect_no_match (l : list regexp.Regexp) (s : string) :
  Forall (fun re => regexp.FindStringSubmatchIndex re s = None) l ->
  detect l s = UserAgent.mk UA_OTHER 0 0 0.
Proof.
  induction 1 as [|re l Hre _ IH]; cbn [detect]; [reflexivity|]. now rewrite Hre.
Qed.

Lemma detect_first_match (before after : list regexp.Regexp) (re : regexp.Regexp)
  (s : string) (m : regexp.caps) :
  Forall (fun re => regexp.FindStringSubmatchIndex re s = None) before ->
  regexp.FindStringSubmatchIndex re s = Some m ->
  detect (before ++ re :: after) s
  = UserAgent.mk (regexp.group_text s m 1)
                 (fst (strconv.ParseUint (regexp.group_text s m 2)))
                 (fst (strconv.ParseUint (regexp.group_text s m 3)))
                 (fst (strconv.ParseUint (regexp.group_text s m 4))).
Proof.
  intros Hbefore Hre. induction Hbefore as [|r before Hr _ IH]; cbn [app detect].
  - now rewrite Hre.
  - now rewrite Hr.
Qed.

Lemma uaList_compiles : compile_all uaList [] = Some uaCompiled.
Proof. vm_compute. reflexivity. Qed.

Lemma uaCompiled_digit_groups : Forall (fun re => digit_groups re = true) uaCompiled.
Proof.
  apply Forall_forall. intros re Hre. apply list_elem_of_In in Hre.
  assert (H : forallb digit_groups uaCompiled = true) by (vm_compute; reflexivity).
  now apply (proj1 (forallb_forall _ _) H).
Qed.

Lemma DetectUA_first_call (UAstring : string) :
  DetectUA [] UAstring = Some (uaCompiled, detect uaCompiled UAstring).
Proof.
  unfold DetectUA. cbn [length Nat.eqb]. now rewrite uaList_compiles.
Qed.

(** C7. [DetectUA] always returns a record.  When no pattern matches
    the input it is the sentinel: family ["OTHER"], version 0.0.0.  When
    a pattern matches, a version field whose capture group is absent or
    not numeric is 0. *)
Theorem DetectUA_defaults (UAstring : string) :
  exists ua,
    DetectUA [] UAstring = Some (uaCompiled, ua)
    /\ (Forall (fun re => regexp.FindStringSubmatchIndex re UAstring = None) uaCompiled ->
        ua = UserAgent.mk UA_OTHER 0 0 0)
    /\ (forall before re after matches,
          uaCompiled = before ++ re :: after ->
          Forall (fun re => regexp.FindStringSubmatchIndex re UAstring = None) before ->
          regexp.FindStringSubmatchIndex re UAstring = Some matches ->
          UserAgent.Family ua = regexp.group_text UAstring matches 1
          /\ (numeric (regexp.group_text UAstring matches 2) = false -> UserAgent.Major ua = 0)
          /\ (numeric (regexp.group_text UAstring matches 3) = false -> UserAgent.Minor ua = 0)
          /\ (numeric (regexp.group_text UAstring matches 4) = false -> UserAgent.Patch ua = 0)).
Proof.
  exists (detect uaCompiled UAstring). split; [apply DetectUA_first_call|]. split.
  - apply detect_no_match.
  - intros before re after m Htable Hbefore Hre.
    assert (Hgood : good (bytes_of UAstring) m).
    { apply (Find_good re); [|assumption].
      pose proof uaCompiled_digit_groups as Hall. rewrite Htable in Hall.
      apply Forall_app in Hall as [_ Hall]. now apply Forall_cons in Hall as [Hall _]. }
    rewrite Htable, (detect_first_match before after re UAstring m Hbefore Hre).
    cbn [UserAgent.Family UserAgent.Major UserAgent.Minor UserAgent.Patch].
    repeat split; intros Hnum;
      now apply absent_or_non_numeric_is_zero.
Qed.

Lemma DetectUA_defaults_witness :
  snd <$> DetectUA [] "curl/7.64" = Some (UserAgent.mk UA_OTHER 0 0 0)
  /\ (UserAgent.Patch ∘ snd) <$> DetectUA [] firefox_ua = Some 0.
Proof.
  split.
  - destruct (DetectUA_defaults "curl/7.64") as (ua & Hcall & Hother & _).
    rewrite Hcall. cbn. f_equal. apply Hother.
    apply (bool_decide_unpack _). vm_compute. exact I.
  - destruct (DetectUA_defaults firefox_ua) as (ua & Hcall & _ & Hmatch).
    rewrite Hcall. cbn. f_equal.
    apply (Hmatch (take 7 uaCompiled) firefox_re [] firefox_matches).
    + vm_compute. reflexivity.
    + apply (bool_decide_unpack _). vm_compute. exact I.
    + vm_compute. reflexivity.
    + vm_compute. reflexivity.
Defined.

(** ** The request counter *)

Lemma call_keeps_state (h : HandlerFunc) : keeps_state (call h).
Proof. intros s. unfold call. destruct (h (world s)); reflexivity. Qed.

Lemma Recovery_keeps_state (recovered : World -> World) (next : Go unit) :
  keeps_state next -> keeps_state (Recovery recovered next).
Proof.
  intros Hnext s. unfold Recovery. specialize (Hnext s).
  destruct (next s); exact Hnext.
Qed.

Lemma httpLogger_keeps_state (next : Go unit) :
  keeps_state next -> keeps_state (httpLogger next).
Proof.
  intros Hnext s. rewrite httpLogger_unfold. specialize (Hnext s).
  destruct (next s) as [[] s'|s']; [|exact Hnext].
  destruct (gin.Get "httpNoLogging" (ctx (world s'))); exact Hnext.
Qed.

Lemma register_services_handlers lv group l cur gh hp log w hp' log' w' :
  register_services lv group l cur gh hp log w = Some (hp', log', w') ->
  handlers (gin_ w') = handlers (gin_ w).
Proof.
  revert cur gh hp log w. induction l as [|v l IH]; intros cur gh hp log w H.
  - cbn in H. now injection H as _ _ <-.
  - cbn [register_services] in H.
    destruct (bind_var lv cur v (svars hp)) as [cells s_cell].
    destruct (register_alt _ _ _ _ _ _) as [[hp2 alt]|]; [|discriminate].
    apply IH in H. exact H.
Qed.

Lemma ServiceRegister_handlers lv hp log w group services hp' log' w' :
  ServiceRegister lv hp log w group services = Some (hp', log', w') ->
  handlers (gin_ w') = handlers (gin_ w).
Proof. apply register_services_handlers. Qed.

Lemma NewWebServer_handlers recovered config w g :
  NewWebServer recovered config = Some (w, g) ->
  g = mkGlobalState false 0
  /\ exists robots,
       (forall next, keeps_state next -> keeps_state (robots next))
       /\ handlers (gin_ w)
          = [requestID_middleware; httpLogger; robots; Recovery recovered].
Proof.
  unfold NewWebServer.
  destruct robotsDetect_sets_flag as (robots & -> & Hflag).
  intros [= <- <-]. split; [reflexivity|]. exists robots. split; [|reflexivity].
  intros next Hnext s. rewrite Hflag. apply (Hnext (with_ctx _ s)).
Qed.

Lemma numbered_requestID (n : Z) (x : World) :
  gin.Get "requestID" (ctx (world (numbered n x))) = Some (gin.AUint64 n).
Proof. apply lookup_insert_eq. Qed.

Lemma serve_all_numbered hp w rest reqs (l : bool) (c : Z) :
  handlers (gin_ w) = requestID_middleware :: rest ->
  (forall found, keeps_state (below_counter hp w found)) ->
  0 <= c -> c + Z.of_nat (length reqs) < 2 ^ 64 ->
  serve_all hp w (mkGlobalState l c) reqs
  = imap (fun i req => below_counter hp w (snd req)
                         (numbered (c + Z.of_nat i + 1) (fst req))) reqs.
Proof.
  intros Hw Hkeep. revert l c.
  induction reqs as [|[x found] reqs IH]; intros l c Hc Hlen; [reflexivity|].
  cbn [serve_all imap fst snd].
  assert (Hserve : ServeHTTP hp w found (mkSt (mkGlobalState l c) x)
                   = below_counter hp w found (numbered (c + 1) x)).
  { unfold ServeHTTP, below_counter. rewrite Hw. cbn [foldr drop].
    rewrite requestID_middleware_handoff. unfold handoff, numbered, with_ctx, wrap64.
    cbn [state world requestCounter ctx LoggerHttp Logger clock].
    rewrite Z.mod_small by (cbn [length] in Hlen; lia). reflexivity. }
  rewrite Hserve, Hkeep. cbn [state numbered].
  f_equal.
  - now rewrite Z.add_0_r.
  - rewrite IH by (cbn [length] in Hlen; lia).
    apply imap_ext. intros i req _. cbn. do 2 f_equal. lia.
Qed.

(** C1. A server made by [NewWebServer], with services registered,
    serves N requests (N below 2^64): the request in position i, counted
    from 0, enters the handlers below the first middleware with the
    number i + 1 under the key [requestID] and with the counter at
    i + 1.  The numbers are 1, 2, ..., N in this order: they start at 1,
    increase by one, and none is skipped or given twice. *)
Theorem requestIDs_are_1_to_N
  (recovered : World -> World) (config : WebServerConfig.t) (lv : loopvar)
  (w w' : WebServer) (g : globalState) (hp hp' : Heap) (log log' : list zerolog.Event)
  (group : string) (services : list WebService.t)
  (reqs : list (World * option (list HandlerFunc))) :
  NewWebServer recovered config = Some (w, g) ->
  ServiceRegister lv hp log w group services = Some (hp', log', w') ->
  Z.of_nat (length reqs) < 2 ^ 64 ->
  serve_all hp' w' g reqs
  = imap (fun i req => below_counter hp' w' (snd req)
                         (numbered (Z.of_nat i + 1) (fst req))) reqs
  /\ forall i req,
       reqs !! i = Some req ->
       gin.Get "requestID" (ctx (world (numbered (Z.of_nat i + 1) (fst req))))
       = Some (gin.AUint64 (Z.of_nat i + 1)).
Proof.
  intros Hnew Hreg Hlen.
  apply NewWebServer_handlers in Hnew as (-> & robots & Hrobots & Hw).
  apply ServiceRegister_handlers in Hreg. rewrite <- Hreg in Hw.
  split; [|intros; apply numbered_requestID].
  rewrite (serve_all_numbered hp' w' _ reqs false 0 Hw); [reflexivity| |lia|lia].
  intros found. unfold below_counter. rewrite Hw. cbn [drop foldr].
  apply httpLogger_keeps_state, Hrobots, Recovery_keeps_state, call_keeps_state.
Qed.


Lemma requestIDs_are_1_to_N_witness :
  serve_all (fst (fst test_registered)) (snd test_registered) (snd test_new) test_requests
  = imap (fun i req => below_counter (fst (fst test_registered)) (snd test_registered)
                         (snd req) (numbered (Z.of_nat i + 1) (fst req)))
         test_requests
  /\ forall i req,
       test_requests !! i = Some req ->
       gin.Get "requestID" (ctx (world (numbered (Z.of_nat i + 1) (fst req))))
       = Some (gin.AUint64 (Z.of_nat i + 1)).
Proof.
  refine (requestIDs_are_1_to_N (fun x => x) test_config PerLoop
            (fst test_new) (snd test_registered) (snd test_new)
            (mkHeap [] []) (fst (fst test_registered)) [] (snd (fst test_registered))
            "" [articles_service] test_requests _ _ _).
  - reflexivity.
  - reflexivity.
  - cbn. lia.
Defined.

(** ** Alternate routing with a variable per iteration *)

Lemma heap_extends_refl (hp : Heap) : heap_extends hp hp.
Proof. split; reflexivity. Qed.

Lemma heap_extends_trans (a b c : Heap) :
  heap_extends a b -> heap_extends b c -> heap_extends a c.
Proof. intros [? ?] [? ?]. split; etransitivity; eassumption. Qed.

Lemma stands_for_extends (hp hp' : Heap) (r : iRoute.t) e :
  heap_extends hp hp' -> stands_for hp r e -> stands_for hp' r e.
Proof.
  intros [Hs Hr] (Hre & Hsv & Hrv). repeat split; [assumption| |].
  - eapply prefix_lookup_Some; eassumption.
  - eapply prefix_lookup_Some; eassumption.
Qed.

Lemma register_alt_per_iteration (l : list WebRoute.t) (s : WebService.t)
  (s_cell : nat) (cur : option nat) (hp hp' : Heap) (alt alt' : list iRoute.t)
  (entries : list (WebService.t * WebRoute.t)) :
  register_alt PerIteration l s_cell cur hp alt = Some (hp', alt') ->
  svars hp !! s_cell = Some s ->
  Forall2 (stands_for hp) alt entries ->
  heap_extends hp hp'
  /\ Forall2 (stands_for hp') alt' (entries ++ map (fun route => (s, route)) l).
Proof.
  revert cur hp alt entries.
  induction l as [|v l IH]; intros cur hp alt entries H Hs Hall.
  - cbn in H. injection H as <- <-. rewrite app_nil_r.
    split; [apply heap_extends_refl|assumption].
  - cbn [register_alt bind_var] in H.
    destruct (MustCompile_ (WebRoute.Path v)) as [re|] eqn:Hre; [|discriminate].
    set (hp1 := mkHeap (svars hp) (routevars hp ++ [v])) in *.
    assert (Hext : heap_extends hp hp1).
    { split; [reflexivity|]. now apply prefix_app_r. }
    apply (IH _ hp1 _ (entries ++ [(s, v)])) in H as [Hext' Hall'].
    + split; [eapply heap_extends_trans; eassumption|].
      now rewrite <- app_assoc in Hall'.
    + exact Hs.
    + apply Forall2_app.
      * eapply Forall2_impl; [eassumption|].
        intros r e. now apply stands_for_extends.
      * constructor; [|constructor]. repeat split; cbn.
        -- exact Hre.
        -- exact Hs.
        -- now rewrite lookup_app_r, Nat.sub_diag by reflexivity.
Qed.

Lemma register_services_per_iteration (group : string) (l : list WebService.t)
  (cur : option nat) (gh : list HandlerFunc) (hp hp' : Heap)
  (log log' : list zerolog.Event) (w w' : WebServer)
  (entries : list (WebService.t * WebRoute.t)) :
  register_services PerIteration group l cur gh hp log w = Some (hp', log', w') ->
  Forall2 (stands_for hp) (altRoutes w) entries ->
  Forall2 (stands_for hp') (altRoutes w') (entries ++ alt_entries l).
Proof.
  revert cur gh hp log w entries.
  induction l as [|v l IH]; intros cur gh hp log w entries H Hall.
  - cbn in H. injection H as <- _ <-. unfold alt_entries. cbn. now rewrite app_nil_r.
  - cbn [register_services bind_var] in H.
    set (hp1 := mkHeap (svars hp ++ [v]) (routevars hp)) in *.
    destruct (register_alt PerIteration (WebService.AltRoutes v) (length (svars hp))
                None hp1 (altRoutes w)) as [[hp2 alt]|] eqn:Halt; [|discriminate].
    assert (Hext : heap_extends hp hp1).
    { split; [now apply prefix_app_r|reflexivity]. }
    apply (register_alt_per_iteration _ v _ _ _ _ _ _ entries) in Halt as [_ Hall2].
    + apply IH with (entries := entries ++ map (fun route => (v, route)) (WebService.AltRoutes v))
        in H.
      * unfold alt_entries in *. cbn [flat_map]. now rewrite app_assoc.
      * exact Hall2.
    + cbn. now rewrite lookup_app_r, Nat.sub_diag by reflexivity.
    + eapply Forall2_impl; [eassumption|].
      intros r e. now apply stands_for_extends.
Qed.

Lemma alt_scan_dispatch (hp : Heap) (alt : list iRoute.t)
  (entries : list (WebService.t * WebRoute.t)) (x : World) :
  Forall2 (stands_for hp) alt entries ->
  alt_scan hp alt x = dispatch_first_match entries x.
Proof.
  induction 1 as [|r e alt entries (Hre & Hs & Hr) _ IH]; cbn [alt_scan dispatch_first_match];
    [reflexivity|].
  unfold entry_matches. rewrite Hre.
  destruct (regexp.MatchString _ _); [|exact IH].
  unfold call_closure, run_entry. now rewrite Hs, Hr.
Qed.

(** With a variable per iteration (Go 1.22 and later), the dispatch of
    a server whose alternate routes all come from one call of
    [ServiceRegister] is the specified one. *)
Lemma AltRouter_per_iteration (hp hp' : Heap) (log log' : list zerolog.Event)
  (w w' : WebServer) (group : string) (services : list WebService.t) (x : World) :
  altRoutes w = [] ->
  ServiceRegister PerIteration hp log w group services = Some (hp', log', w') ->
  AltRouter hp' w' x = dispatch_first_match (alt_entries services) x.
Proof.
  intros Hw H. unfold AltRouter. apply alt_scan_dispatch.
  apply (register_services_per_iteration _ _ _ _ _ _ _ _ _ _ [] H).
  rewrite Hw. constructor.
Qed.

(* ------------------------------------------------------------------ *)
(** ** The request counter under interleaving *)

Lemma ids_length (gs : list goroutine) : (length (ids gs) <= length gs)%nat.
Proof.
  induction gs as [|g gs IH]; cbn; [lia|].
  destruct (assigned g); cbn; fold (ids gs); lia.
Qed.

Lemma ids_middle (gs : list goroutine) (i : nat) (g : goroutine) :
  gs !! i = Some g ->
  ids gs = ids (take i gs) ++ option_list (assigned g) ++ ids (drop (S i) gs).
Proof.
  intros Hg. unfold ids.
  rewrite <- (take_drop_middle gs i g Hg) at 1.
  rewrite omap_app. cbn. destruct (assigned g); reflexivity.
Qed.

Lemma ids_insert (gs : list goroutine) (i : nat) (g g' : goroutine) :
  gs !! i = Some g ->
  ids (<[i := g']> gs)
  = ids (take i gs) ++ option_list (assigned g') ++ ids (drop (S i) gs).
Proof.
  intros Hg. unfold ids.
  rewrite insert_take_drop by (eapply lookup_lt_Some; eassumption).
  rewrite omap_app. cbn. destruct (assigned g'); reflexivity.
Qed.

Lemma ids_insert_same (gs : list goroutine) (i : nat) (g g' : goroutine) :
  gs !! i = Some g -> assigned g' = assigned g -> ids (<[i := g']> gs) = ids gs.
Proof.
  intros Hg Heq.
  rewrite (ids_insert gs i g g' Hg), (ids_middle gs i g Hg), Heq. reflexivity.
Qed.

Lemma ids_insert_new (gs : list goroutine) (i : nat) (g g' : goroutine) (v : Z) :
  gs !! i = Some g -> assigned g = None -> assigned g' = Some v ->
  Permutation (ids (<[i := g']> gs)) (ids gs ++ [v]).
Proof.
  intros Hg Hnone Hv.
  rewrite (ids_insert gs i g g' Hg), (ids_middle gs i g Hg), Hnone, Hv. cbn.
  rewrite <- Permutation_middle. apply Permutation_cons_append.
Qed.

Lemma ids_room (gs : list goroutine) (i : nat) (g : goroutine) :
  gs !! i = Some g -> assigned g = None -> (length (ids gs) < length gs)%nat.
Proof.
  intros Hg Hnone.
  rewrite (ids_middle gs i g Hg), Hnone. cbn.
  rewrite length_app.
  pose proof (ids_length (take i gs)) as Ht.
  pose proof (ids_length (drop (S i) gs)) as Hd.
  rewrite <- (take_drop_middle gs i g Hg) at 3.
  rewrite length_app. cbn. lia.
Qed.

Lemma quiet_not_inside (g : goroutine) (k : gmap string gin.any) (p : pc) :
  quiet g -> g = mkGoroutine p k -> p = AtLock \/ p = AtNext.
Proof. intros [H|[H _]] ->; cbn in H; auto. Qed.

Lemma others_quiet_insert (gs : list goroutine) (i : nat) (g' : goroutine) :
  (forall j g0, j <> i -> gs !! j = Some g0 -> quiet g0) ->
  forall j g0, j <> i -> <[i := g']> gs !! j = Some g0 -> quiet g0.
Proof.
  intros H j g0 Hj Hl. rewrite list_lookup_insert_ne in Hl by congruence.
  eauto.
Qed.

Lemma all_quiet_insert (gs : list goroutine) (i : nat) (g g' : goroutine) :
  gs !! i = Some g ->
  (forall j g0, j <> i -> gs !! j = Some g0 -> quiet g0) ->
  quiet g' -> Forall quiet (<[i := g']> gs).
Proof.
  intros Hg H Hq. apply Forall_lookup. intros j g0 Hl.
  destruct (decide (j = i)) as [->|Hne].
  - rewrite list_lookup_insert_eq in Hl by (eapply lookup_lt_Some; eassumption).
    injection Hl as <-. exact Hq.
  - rewrite list_lookup_insert_ne in Hl by congruence. eauto.
Qed.

(** The holder of the mutex is the only goroutine inside the critical
    section. *)
Lemma inside_is_holder (S : shared) (i : nat) (k : gmap string gin.any) (p : pc) :
  inv S -> goroutines S !! i = Some (mkGoroutine p k) ->
  p <> AtLock -> p <> AtNext ->
  exists g, holder S = Some i /\ goroutines S !! i = Some g /\ g = mkGoroutine p k.
Proof.
  intros [_ Hinv] Hl Hp1 Hp2. destruct (holder S) as [h|].
  - destruct Hinv as (g & Hg & Hothers & _).
    destruct (decide (i = h)) as [->|Hne].
    + exists g. split; [reflexivity|]. split; [assumption|congruence].
    + destruct (quiet_not_inside _ k p (Hothers i _ Hne Hl) eq_refl); contradiction.
  - destruct Hinv as (Hall & _).
    pose proof (proj1 (Forall_lookup _ _) Hall i _ Hl) as Hq.
    destruct (quiet_not_inside _ k p Hq eq_refl); contradiction.
Qed.

Lemma step_inv (S S' : shared) : inv S -> step S S' -> inv S'.
Proof.
  intros HI Hstep. destruct Hstep as [i k c gs Hl|i k h c gs Hl|i k h c gs Hl|i k h c gs Hl].
  - (* Lock *)
    destruct HI as [Hlen (Hall & Hc & Hperm)]. cbn [holder counter goroutines] in *.
    unfold inv; cbn [holder counter goroutines].
    split; [rewrite length_insert; exact Hlen|].
    exists (mkGoroutine AtIncrement k).
    split; [apply list_lookup_insert_eq; eapply lookup_lt_Some; eassumption|].
    split.
    + apply others_quiet_insert. intros j g0 _ Hj.
      exact (proj1 (Forall_lookup _ _) Hall j g0 Hj).
    + cbn [at_]. split; [exact Hc|].
      rewrite (ids_insert_same gs i _ _ Hl) by reflexivity. exact Hperm.
  - (* requestCounter++ *)
    destruct (inside_is_holder _ i k AtIncrement HI Hl) as (g & Hh & Hg & ->);
      [discriminate|discriminate|].
    cbn in Hh. subst h.
    destruct HI as [Hlen (g & Hg' & Hothers & Hat)]. cbn [holder counter goroutines] in *.
    unfold inv; cbn [holder counter goroutines].
    rewrite Hg in Hg'. injection Hg' as <-. cbn [at_] in Hat.
    destruct Hat as [Hc Hperm].
    assert (Hroom : c < Z.of_nat (length gs)).
    { pose proof (ids_room gs i _ Hg eq_refl) as Hr.
      rewrite (Permutation_length Hperm), length_seqZ in Hr. lia. }
    assert (Hw : wrap64 (c + 1) = c + 1).
    { unfold wrap64. apply Z.mod_small. lia. }
    rewrite Hw.
    split; [rewrite length_insert; exact Hlen|].
    exists (mkGoroutine AtSet k).
    split; [apply list_lookup_insert_eq; eapply lookup_lt_Some; eassumption|].
    split; [apply others_quiet_insert; exact Hothers|].
    cbn [at_]. split; [lia|].
    rewrite (ids_insert_same gs i _ _ Hg) by reflexivity.
    replace (c + 1 - 1) with c by lia. exact Hperm.
  - (* c.Set *)
    destruct (inside_is_holder _ i k AtSet HI Hl) as (g & Hh & Hg & ->);
      [discriminate|discriminate|].
    cbn in Hh. subst h.
    destruct HI as [Hlen (g & Hg' & Hothers & Hat)]. cbn [holder counter goroutines] in *.
    unfold inv; cbn [holder counter goroutines].
    rewrite Hg in Hg'. injection Hg' as <-. cbn [at_] in Hat.
    destruct Hat as [Hc Hperm].
    split; [rewrite length_insert; exact Hlen|].
    eexists.
    split; [apply list_lookup_insert_eq; eapply lookup_lt_Some; eassumption|].
    split; [apply others_quiet_insert; exact Hothers|].
    assert (Hset : assigned (mkGoroutine AtUnlock (<["requestID"%string := gin.AUint64 c]> k))
                   = Some c).
    { unfold assigned. cbn. rewrite lookup_insert_eq. reflexivity. }
    cbn [at_]. split; [lia|]. split; [exact Hset|].
    rewrite (ids_insert_new gs i _ _ c Hg eq_refl Hset).
    rewrite Hperm.
    replace c with ((c - 1) + 1) at 3 by lia.
    rewrite seqZ_app by lia. cbn.
    replace (1 + (c - 1)) with c by lia. reflexivity.
  - (* Unlock *)
    destruct (inside_is_holder _ i k AtUnlock HI Hl) as (g & Hh & Hg & ->);
      [discriminate|discriminate|].
    cbn in Hh. subst h.
    destruct HI as [Hlen (g & Hg' & Hothers & Hat)]. cbn [holder counter goroutines] in *.
    unfold inv; cbn [holder counter goroutines].
    rewrite Hg in Hg'. injection Hg' as <-. cbn [at_] in Hat.
    destruct Hat as (Hc & Hset & Hperm).
    assert (Hnext : assigned (mkGoroutine AtNext k) = Some c) by exact Hset.
    split; [rewrite length_insert; exact Hlen|].
    split.
    { eapply all_quiet_insert; [exact Hg|exact Hothers|].
      right. split; [reflexivity|]. rewrite Hnext. eauto. }
    split; [lia|].
    rewrite (ids_insert_same gs i _ _ Hg) by (rewrite Hnext, Hset; reflexivity).
    exact Hperm.
Qed.

Lemma step_length (S S' : shared) :
  step S S' -> length (goroutines S') = length (goroutines S).
Proof. intros []; cbn [goroutines]; apply length_insert. Qed.

Lemma sum_list_append (l1 l2 : list nat) :
  sum_list (l1 ++ l2) = (sum_list l1 + sum_list l2)%nat.
Proof. induction l1 as [|n l1 IH]; cbn; [reflexivity|rewrite IH; lia]. Qed.

Lemma total_insert (gs : list goroutine) (i : nat) (g g' : goroutine) :
  gs !! i = Some g -> remaining g = S (remaining g') ->
  sum_list (map remaining gs) = S (sum_list (map remaining (<[i := g']> gs))).
Proof.
  intros Hg Hr.
  rewrite insert_take_drop by (eapply lookup_lt_Some; eassumption).
  rewrite <- (take_drop_middle gs i g Hg) at 1.
  rewrite !map_app, !sum_list_append. cbn [map sum_list_with id].
  rewrite Hr. lia.
Qed.

(** Every step runs one statement: a schedule of [N] requests has at most
    [4 * N] steps. *)
Lemma step_total (S S' : shared) : step S S' -> total S = Datatypes.S (total S').
Proof.
  intros [i k c gs Hl|i k h c gs Hl|i k h c gs Hl|i k h c gs Hl];
    unfold total; cbn [goroutines];
    apply (total_insert gs i _ _ Hl); reflexivity.
Qed.

Lemma start_inv (ks : list (gmap string gin.any)) :
  Z.of_nat (length ks) < 2 ^ 64 -> inv (start ks).
Proof.
  intros Hlen. unfold inv, start. cbn [holder counter goroutines].
  rewrite length_map. split; [exact Hlen|].
  split; [|split; [lia|]].
  - apply Forall_forall. intros g Hin.
    apply list_elem_of_fmap in Hin as (k & -> & _). left. reflexivity.
  - replace (ids (map (mkGoroutine AtLock) ks)) with (@nil Z); [reflexivity|].
    clear Hlen. induction ks as [|k ks IH]; [reflexivity|exact IH].
Qed.

Lemma reachable_inv (S S' : shared) : inv S -> rtc step S S' -> inv S'.
Proof. intros HI Hr. induction Hr; eauto using step_inv. Qed.

Lemma reachable_length (S S' : shared) :
  rtc step S S' -> length (goroutines S') = length (goroutines S).
Proof.
  intros Hr. induction Hr as [|S1 S2 S3 Hs _ IH]; [reflexivity|].
  rewrite IH. exact (step_length _ _ Hs).
Qed.

Lemma finished_ids_length (gs : list goroutine) :
  Forall quiet gs -> Forall (fun g => at_ g = AtNext) gs ->
  length (ids gs) = length gs.
Proof.
  induction 1 as [|g gs Hq _ IH]; intros Hf; [reflexivity|].
  apply Forall_cons in Hf as [Hg Hf]. cbn.
  destruct Hq as [Hq|[_ [v Hv]]]; [congruence|].
  rewrite Hv. cbn. f_equal. exact (IH Hf).
Qed.

(** A schedule that is not finished can go on: the mutex is free and some
    request waits for it, or its holder has a statement to run. *)
Lemma inv_progress (S : shared) : inv S -> ~ finished S -> exists S', step S S'.
Proof.
  destruct S as [h c gs]. intros [_ HI] Hnf. cbn [holder counter goroutines] in HI.
  destruct h as [i|].
  - destruct HI as ([p k] & Hg & _ & Hat). cbn [at_] in Hat.
    destruct p; try contradiction; eexists.
    + eapply step_Increment; exact Hg.
    + eapply step_Set; exact Hg.
    + eapply step_Unlock; exact Hg.
  - destruct HI as (Hall & _). unfold finished in Hnf. cbn [goroutines] in Hnf.
    apply not_Forall_Exists in Hnf; [|intros g; apply _].
    apply Exists_exists in Hnf as (g & Hin & Hne).
    apply list_elem_of_lookup in Hin as [i Hi].
    pose proof (proj1 (Forall_lookup _ _) Hall i g Hi) as [Hq|[Hq _]];
      [|contradiction].
    destruct g as [p k]. cbn [at_] in Hq. subst p.
    eexists. eapply step_Lock. exact Hi.
Qed.

(** Served concurrently, [N < 2^64] requests get the numbers [1 .. N], each
    exactly once, whatever the schedule: when every goroutine has reached
    [c.Next()], the numbers stored under [requestID] are a permutation of
    [1, 2, ..., N] and the counter is [N]. *)
Lemma interleaved_requestIDs (ks : list (gmap string gin.any)) (S : shared) :
  Z.of_nat (length ks) < 2 ^ 64 ->
  rtc step (start ks) S -> finished S ->
  holder S = None
  /\ counter S = Z.of_nat (length ks)
  /\ length (ids (goroutines S)) = length ks
  /\ Permutation (ids (goroutines S)) (seqZ 1 (Z.of_nat (length ks))).
Proof.
  intros Hlen Hr Hf.
  pose proof (reachable_inv _ _ (start_inv ks Hlen) Hr) as [_ HI].
  pose proof (reachable_length _ _ Hr) as HL.
  unfold start in HL. cbn [goroutines] in HL. rewrite length_map in HL.
  destruct S as [h c gs]. cbn [holder counter goroutines] in *.
  destruct h as [i|].
  - exfalso. destruct HI as (g & Hg & _ & Hat).
    unfold finished in Hf. cbn [goroutines] in Hf.
    rewrite (proj1 (Forall_lookup _ _) Hf i g Hg) in Hat. exact Hat.
  - destruct HI as (Hall & Hc & Hperm).
    pose proof (finished_ids_length gs Hall Hf) as Hn.
    assert (Hcn : c = Z.of_nat (length ks)).
    { pose proof (Permutation_length Hperm) as Hp.
      rewrite length_seqZ in Hp. lia. }
    split; [reflexivity|]. split; [exact Hcn|].
    split; [lia|]. rewrite <- Hcn. exact Hperm.
Qed.
